(** * WinAppSwitcher: a shallow embedding of [app_switcher.py]

    The development follows the module top to bottom: text primitives of
    [str], the ordered [dict] behind [KEY_BINDINGS], [clean_key_bindings],
    [create_table], the win32 calls used by [activate_app], and the key loop
    [start_loop].

    Modelling conventions.
    - Text is a [string] of ASCII characters; on ASCII text [str.upper],
      [str.strip], [str.isalpha] and [str.capitalize] are exactly the
      functions of module [str] below.
    - A [dict] is the list of its items in insertion order; a well-formed
      dict has pairwise distinct keys ([dict_wf]).
    - Everything the program does to the outside world (win32gui calls,
      [print], [os.system]) is recorded, in order, as a list of [event]s.
    - A win32 call that raises is a call whose window carries the message of
      the exception it raises. *)

From Stdlib Require Import List String Ascii Strings.Byte Bool Arith ZArith Lia.
Import ListNotations.
Local Open Scope string_scope.
Local Open Scope list_scope.
Local Open Scope nat_scope.

(** ** Text: the [str] methods the program calls *)

Module str.

Definition code (c : ascii) : nat := nat_of_ascii c.

Definition is_lower (c : ascii) : bool := (97 <=? code c) && (code c <=? 122).
Definition is_upper (c : ascii) : bool := (65 <=? code c) && (code c <=? 90).
Definition is_letter (c : ascii) : bool := is_lower c || is_upper c.

(** [str.isspace] on ASCII: TAB, LF, VT, FF, CR, FS, GS, RS, US and SPACE. *)
Definition isspace (c : ascii) : bool :=
  ((9 <=? code c) && (code c <=? 13)) || ((28 <=? code c) && (code c <=? 32)).

Definition upper_char (c : ascii) : ascii :=
  if is_lower c then ascii_of_nat (code c - 32) else c.
Definition lower_char (c : ascii) : ascii :=
  if is_upper c then ascii_of_nat (code c + 32) else c.

Fixpoint upper (s : string) : string :=
  match s with
  | EmptyString => EmptyString
  | String c r => String (upper_char c) (upper r)
  end.

Fixpoint lower (s : string) : string :=
  match s with
  | EmptyString => EmptyString
  | String c r => String (lower_char c) (lower r)
  end.

(** [s.capitalize()]: first character upper-cased, the rest lower-cased. *)
Definition capitalize (s : string) : string :=
  match s with
  | EmptyString => EmptyString
  | String c r => String (upper_char c) (lower r)
  end.

Fixpoint all_letters (s : string) : bool :=
  match s with
  | EmptyString => true
  | String c r => is_letter c && all_letters r
  end.

(** [s.isalpha()]: non-empty and every character a letter. *)
Definition isalpha (s : string) : bool :=
  match s with
  | EmptyString => false
  | String _ _ => all_letters s
  end.

Fixpoint lstrip (s : string) : string :=
  match s with
  | EmptyString => EmptyString
  | String c r => if isspace c then lstrip r else s
  end.

Fixpoint rev (s : string) : string :=
  match s with
  | EmptyString => EmptyString
  | String c r => (rev r ++ String c EmptyString)%string
  end.

Definition rstrip (s : string) : string := rev (lstrip (rev s)).

(** [s.strip()] without argument. *)
Definition strip (s : string) : string := rstrip (lstrip s).

(** [needle in hay] for two strings: substring containment. *)
Fixpoint contains (needle hay : string) : bool :=
  prefix needle hay ||
  match hay with
  | EmptyString => false
  | String _ r => contains needle r
  end.

(** Truth value of a string: [bool(s)], false exactly for ['']. *)
Definition truthy (s : string) : bool :=
  match s with
  | EmptyString => false
  | String _ _ => true
  end.

End str.

(** The double quote of the f-string in [activate_app]. *)
Definition dquote : string := String (ascii_of_nat 34) EmptyString.

(** ** Ordered dictionaries *)

Definition dict : Type := list (string * string).

Definition items (d : dict) : list (string * string) := d.
Definition keys (d : dict) : list string := map fst d.

(** A Python dict never holds one key twice. *)
Definition dict_wf (d : dict) : Prop := NoDup (keys d).

(** [d[k] = v]: an existing key keeps its position, a new key goes last. *)
Fixpoint dict_setitem (k v : string) (d : dict) : dict :=
  match d with
  | [] => [(k, v)]
  | (k', v') :: r =>
      if String.eqb k' k then (k', v) :: r else (k', v') :: dict_setitem k v r
  end.

(** [d[k]]; [None] stands for [KeyError]. *)
Fixpoint dict_getitem (k : string) (d : dict) : option string :=
  match d with
  | [] => None
  | (k', v') :: r => if String.eqb k' k then Some v' else dict_getitem k r
  end.

(** [k in d.keys()]. *)
Definition dict_contains (k : string) (d : dict) : bool :=
  existsb (String.eqb k) (keys d).

(** The [KEY_BINDINGS] table of the module. *)
Module Config.
Definition KEY_BINDINGS : dict :=
  [ ("A", ""); ("B", ""); ("C", ""); ("D", ""); ("E", "Excel"); ("F", "");
    ("G", ""); ("H", ""); ("I", "Notepad++"); ("J", ""); ("K", "");
    ("L", ""); ("M", "Outlook"); ("N", "Microsoft Teams"); ("O", "");
    ("P", "PDF-XChange Editor"); ("Q", ""); ("R", ""); ("S", "Edge");
    ("T", "Total Commander"); ("U", ""); ("V", "Visual Studio Code");
    ("W", "Word"); ("X", ""); ("Y", "OneNote"); ("Z", "") ].
End Config.

(** ** [AppSwitcher.clean_key_bindings] *)

(** The condition of the comprehension:
    [key.strip() != '' and value.strip() != '']. *)
Definition binding_valid (kv : string * string) : bool :=
  negb (String.eqb (str.strip (fst kv)) "") &&
  negb (String.eqb (str.strip (snd kv)) "").

(** The dict comprehension: items are visited in order and each one that
    passes the condition is stored into the dict under construction. *)
Definition clean_key_bindings (bindings : dict) : dict :=
  fold_left
    (fun acc kv =>
       if binding_valid kv then dict_setitem (fst kv) (snd kv) acc else acc)
    (items bindings) [].

(** ** [AppSwitcher.create_table] *)

Record Texttable : Type := {
  cols_align : list string;
  cols_valign : list string;
  rows : list (list string)
}.

Definition head : list string := ["Key"; "Application"; "Key"; "Application"].

(** [int(row_count / 2) + (1 if row_count % 2 != 0 else 0)].  The quotient
    is a float; it is exact, and [int] truncates it to the integer quotient,
    for every [row_count] below 2^53, which the length of a list in memory
    is. *)
Definition row_count_new_of (row_count : nat) : nat :=
  row_count / 2 + (if negb (row_count mod 2 =? 0) then 1 else 0).

(** One pass of the body of the [for] loop; [None] is the [IndexError] of an
    index outside [data_list]. *)
Definition fill_row (data_list : list (string * string))
    (row_count row_count_new : nat) (rows : list (list string)) (i : nat)
    : option (list (list string)) :=
  match nth_error data_list i with
  | None => None
  | Some (col_a, col_b) =>
      let second_column_index := i + row_count_new in
      let right :=
        if second_column_index <? row_count
        then nth_error data_list second_column_index
        else Some ("", "") in
      match right with
      | None => None
      | Some (col_c, col_d) => Some (rows ++ [[col_a; col_b; col_c; col_d]])
      end
  end.

(** [for i in range(row_count_new): ...], stopping at the first error. *)
Fixpoint fill_cells (data_list : list (string * string))
    (row_count row_count_new : nat) (range : list nat)
    (rows : list (list string)) : option (list (list string)) :=
  match range with
  | [] => Some rows
  | i :: range' =>
      match fill_row data_list row_count row_count_new rows i with
      | None => None
      | Some rows' => fill_cells data_list row_count row_count_new range' rows'
      end
  end.

Definition create_table (KEY_BINDINGS : dict) : option Texttable :=
  let data_list := items (clean_key_bindings KEY_BINDINGS) in
  let row_count := List.length data_list in
  let row_count_new := row_count_new_of row_count in
  match fill_cells data_list row_count row_count_new (seq 0 row_count_new) [] with
  | None => None
  | Some rows =>
      Some {| cols_align := ["l"; "l"; "l"; "l"];
              cols_valign := ["m"; "m"; "m"; "m"];
              rows := head :: rows |}
  end.

(** ** The outside world: win32gui, [print], [os.system] *)

Definition HWND : Type := Z.
Bind Scope Z_scope with HWND.

(** [win32con] constants. *)
Definition SW_SHOWMINIMIZED : Z := 2%Z.
Definition SW_RESTORE : Z := 9%Z.

(** What one top-level window answers to the win32gui calls made on its
    handle.  [ShowWindow_raises] and [SetForegroundWindow_raises] hold the
    message of the exception the call raises, [None] when it returns. *)
Record window : Type := {
  hwnd : HWND;
  visible : bool;
  text : string;
  showCmd : Z;
  ShowWindow_raises : option string;
  SetForegroundWindow_raises : option string
}.

(** The top-level windows in the order [EnumWindows] hands them to its
    callback, and the message of the exception [EnumWindows] itself raises
    once the enumeration is over, if it does. *)
Record desktop : Type := {
  toplevel : list window;
  EnumWindows_raises : option string
}.

Definition with_toplevel (d : desktop) (ws : list window) : desktop :=
  {| toplevel := ws; EnumWindows_raises := EnumWindows_raises d |}.

Inductive event : Type :=
| EvEnumWindows
| EvIsWindowVisible (h : HWND)
| EvGetWindowText (h : HWND)
| EvGetWindowPlacement (h : HWND)
| EvShowWindow (h : HWND) (nCmdShow : Z)
| EvSetForegroundWindow (h : HWND)
| EvPrint (line : string)
| EvPrintTable (table : Texttable)
| EvSystem (command : string).

(** ** Effects of [activate_app]

    A computation appends events, reads and writes the local [found] of
    [activate_app] (the [nonlocal] of the callback) and either returns a
    value or raises an exception, identified by its message. *)

Definition exn : Type := string.

Definition Eff (A : Type) : Type := bool -> list event * bool * (exn + A).

Definition ret {A : Type} (a : A) : Eff A :=
  fun found => ([], found, inr a).

Definition bind {A B : Type} (m : Eff A) (k : A -> Eff B) : Eff B :=
  fun found =>
    let '(t1, found1, r1) := m found in
    match r1 with
    | inl e => (t1, found1, inl e)
    | inr a => let '(t2, found2, r2) := k a found1 in (t1 ++ t2, found2, r2)
    end.

Definition emit (e : event) : Eff unit :=
  fun found => ([e], found, inr tt).

Definition raise {A : Type} (e : exn) : Eff A :=
  fun found => ([], found, inl e).

(** [try: body except Exception as e: handler e]. *)
Definition try_except {A : Type} (body : Eff A) (handler : exn -> Eff A) : Eff A :=
  fun found =>
    let '(t1, found1, r1) := body found in
    match r1 with
    | inl e => let '(t2, found2, r2) := handler e found1 in (t1 ++ t2, found2, r2)
    | inr a => (t1, found1, inr a)
    end.

Definition get_found : Eff bool :=
  fun found => ([], found, inr found).

Definition set_found (b : bool) : Eff unit :=
  fun _ => ([], b, inr tt).

Declare Scope eff_scope.
Delimit Scope eff_scope with eff.
Notation "x <- m ;; k" := (bind m (fun x => k))
  (at level 61, m at next level, right associativity) : eff_scope.
Notation "m ;; k" := (bind m (fun _ => k))
  (at level 61, right associativity) : eff_scope.

Definition or_raise (fault : option string) : Eff unit :=
  match fault with
  | Some e => raise e
  | None => ret tt
  end.

Definition IsWindowVisible (w : window) : Eff bool :=
  (emit (EvIsWindowVisible (hwnd w)) ;; ret (visible w))%eff.

Definition GetWindowText (w : window) : Eff string :=
  (emit (EvGetWindowText (hwnd w)) ;; ret (text w))%eff.

(** Only [placement[1]], the show command, is used by the program. *)
Definition GetWindowPlacement (w : window) : Eff Z :=
  (emit (EvGetWindowPlacement (hwnd w)) ;; ret (showCmd w))%eff.

Definition ShowWindow (w : window) (nCmdShow : Z) : Eff unit :=
  (emit (EvShowWindow (hwnd w) nCmdShow) ;; or_raise (ShowWindow_raises w))%eff.

Definition SetForegroundWindow (w : window) : Eff unit :=
  (emit (EvSetForegroundWindow (hwnd w)) ;;
   or_raise (SetForegroundWindow_raises w))%eff.

Definition print (line : string) : Eff unit := emit (EvPrint line).

(** [EnumWindows] calls the callback on each window in turn until the
    callback returns [False]; an exception of the callback ends it too. *)
Fixpoint enumerate (callback : window -> Eff bool) (ws : list window) : Eff unit :=
  match ws with
  | [] => ret tt
  | w :: ws' =>
      (continue <- callback w ;;
       if continue then enumerate callback ws' else ret tt)%eff
  end.

Definition EnumWindows (d : desktop) (callback : window -> Eff bool) : Eff unit :=
  (emit EvEnumWindows ;;
   enumerate callback (toplevel d) ;;
   or_raise (EnumWindows_raises d))%eff.

(** ** [AppSwitcher.activate_app] *)

(** The [try] statement of the callback: restore if minimized, always set
    as foreground window, then [found = True]; any exception is printed. *)
Definition try_activate (window_handle : window) (is_minimized : bool) : Eff unit :=
  try_except
    ((if is_minimized then ShowWindow window_handle SW_RESTORE else ret tt) ;;
     SetForegroundWindow window_handle ;;
     set_found true)%eff
    (fun e => print ("Error activating window: " ++ e)%string).

Definition enum_callback (target : string) (window_handle : window) : Eff bool :=
  (visible <- IsWindowVisible window_handle ;;
   if visible then
     text <- GetWindowText window_handle ;;
     let title := str.upper text in
     if str.contains (str.upper target) title then
       print ("Activating window: " ++ title)%string ;;
       placement_1 <- GetWindowPlacement window_handle ;;
       let is_minimized := Z.eqb placement_1 SW_SHOWMINIMIZED in
       try_activate window_handle is_minimized ;;
       ret false
     else ret true
   else ret true)%eff.

Definition not_found_line (target : string) : string :=
  ("Window " ++ dquote ++ target ++ dquote ++ " not found.")%string.

Definition activate_app_body (target : string) (d : desktop) : Eff unit :=
  (try_except
     (EnumWindows d (enum_callback target))
     (fun e => print ("An error occurred while checking windows: " ++ e)%string) ;;
   found <- get_found ;;
   if negb found && str.truthy target
   then print (not_found_line target)
   else ret tt)%eff.

(** The events of one call [activate_app(target)] on desktop [d]. *)
Definition activate_app (target : string) (d : desktop) : list event :=
  if negb (str.truthy target) then []
  else fst (fst (activate_app_body target d false)).

(** ** [AppSwitcher.start_loop] *)

(** [bytes.decode()] of the single byte [msvcrt.getch()] returns: a byte
    below 128 is the character of that code, any other byte raises
    [UnicodeDecodeError]. *)
Definition decode (b : byte) : option string :=
  if Byte.to_nat b <? 128 then Some (String (ascii_of_byte b) EmptyString)
  else None.

Inductive loop_exit : Type :=
| Break
| Uncaught (exception : string).

Inductive loop_state : Type :=
| AwaitingKey
| Terminated (how : loop_exit).

(** [if key_input in KEY_BINDINGS.keys():
        self.activate_app(KEY_BINDINGS[key_input])] *)
Definition dispatch (KEY_BINDINGS : dict) (key_input : string) (d : desktop)
    : list event :=
  if dict_contains key_input KEY_BINDINGS then
    match dict_getitem key_input KEY_BINDINGS with
    | Some target => activate_app target d
    | None => []
    end
  else [].

(** The loop over the keys [msvcrt.getch()] delivers, each paired with the
    desktop as it is when the key arrives.  When the keys run out the loop
    is blocked in [getch]. *)
Fixpoint start_loop (KEY_BINDINGS : dict) (table : Texttable)
    (input : list (byte * desktop)) : list event * loop_state :=
  let render := [EvSystem "cls"; EvPrintTable table] in
  match input with
  | [] => (render, AwaitingKey)
  | (b, d) :: input' =>
      match decode b with
      | None => (render, Terminated (Uncaught "UnicodeDecodeError"))
      | Some s =>
          let key_input := str.capitalize s in
          if negb (str.isalpha key_input) then (render, Terminated Break)
          else
            let (t, st) := start_loop KEY_BINDINGS table input' in
            (render ++ dispatch KEY_BINDINGS key_input d ++ t, st)
      end
  end.

(** [AppSwitcher.__init__]; [None] when [create_table] raises. *)
Definition AppSwitcher (KEY_BINDINGS : dict) (input : list (byte * desktop))
    : option (list event * loop_state) :=
  match create_table KEY_BINDINGS with
  | None => None
  | Some table =>
      let (t, st) := start_loop KEY_BINDINGS table input in
      Some (EvSystem "title Python App Switcher" :: t, st)
  end.

(** ** Reading a trace *)

Definition inspected (t : list event) : list HWND :=
  flat_map (fun e => match e with EvIsWindowVisible h => [h] | _ => [] end) t.

Definition titles_read (t : list event) : list HWND :=
  flat_map (fun e => match e with EvGetWindowText h => [h] | _ => [] end) t.

(** The windows the callback took as its match: those whose placement it
    went on to read. *)
Definition selected (t : list event) : list HWND :=
  flat_map (fun e => match e with EvGetWindowPlacement h => [h] | _ => [] end) t.

Definition is_transition (e : event) : bool :=
  match e with
  | EvShowWindow _ _ | EvSetForegroundWindow _ => true
  | _ => false
  end.

(** The restore and foreground requests, in the order issued. *)
Definition transitions (t : list event) : list event := filter is_transition t.

Definition output (t : list event) : list string :=
  flat_map (fun e => match e with EvPrint s => [s] | _ => [] end) t.

Definition enumerations (t : list event) : nat :=
  count_occ (fun a b : bool => Bool.bool_dec a b)
    (map (fun e => match e with EvEnumWindows => true | _ => false end) t) true.

(** ** Notions of the specification *)

(** A window matches a fragment when it is visible and its title contains
    the fragment, both compared in upper case. *)
Definition matches (fragment : string) (w : window) : bool :=
  visible w && str.contains (str.upper fragment) (str.upper (text w)).

Definition is_minimized (w : window) : bool := Z.eqb (showCmd w) SW_SHOWMINIMIZED.

(** The events of the callback on a window that does not match. *)
Definition skipped (w : window) : list event :=
  if visible w then [EvIsWindowVisible (hwnd w); EvGetWindowText (hwnd w)]
  else [EvIsWindowVisible (hwnd w)].

(** The line printed when [EnumWindows] raises. *)
Definition enumeration_report (d : desktop) : list event :=
  match EnumWindows_raises d with
  | Some e => [EvPrint ("An error occurred while checking windows: " ++ e)%string]
  | None => []
  end.

(** The keystroke is an alphabetic character. *)
Definition is_letter_key (b : byte) : bool :=
  match decode b with
  | Some s => str.isalpha s
  | None => false
  end.

(** Ceiling of [n / 2]. *)
Definition ceil_half (n : nat) : nat := (n + 1) / 2.

(** Row [i] of a two-column layout of [data] with [h] rows: entry [i] on the
    left, entry [i + h] on the right, empty cells where there is none. *)
Definition layout_row (data : list (string * string)) (h i : nat) : list string :=
  [fst (nth i data ("", "")); snd (nth i data ("", ""));
   fst (nth (i + h) data ("", "")); snd (nth (i + h) data ("", ""))].

(** Dispatch as the specification words it: the key is looked up in the
    Registry, the filtered bindings, and the Activator is invoked with the
    bound fragment; an unbound key does nothing. *)
Definition registry_dispatch (raw : dict) (key : string) (d : desktop)
    : list event :=
  match dict_getitem key (clean_key_bindings raw) with
  | Some fragment => activate_app fragment d
  | None => []
  end.

(** The exception, if any, that leaves the [try] block of the callback on a
    matched window: that of the restore request when the window is
    minimized, otherwise that of the foreground request. *)
Definition activation_failure (w : window) : option string :=
  if is_minimized w then
    match ShowWindow_raises w with
    | Some e => Some e
    | None => SetForegroundWindow_raises w
    end
  else SetForegroundWindow_raises w.

(** The restore and foreground requests the callback issues on a matched
    window: a restore when it is minimized, then a foreground request
    unless the restore raised. *)
Definition requests (w : window) : list event :=
  (if is_minimized w then [EvShowWindow (hwnd w) SW_RESTORE] else []) ++
  (if is_minimized w
   then match ShowWindow_raises w with
        | Some _ => []
        | None => [EvSetForegroundWindow (hwnd w)]
        end
   else [EvSetForegroundWindow (hwnd w)]).

(** The line of the [except] clause of the callback. *)
Definition failure_report (w : window) : list event :=
  match activation_failure w with
  | Some e => [EvPrint ("Error activating window: " ++ e)%string]
  | None => []
  end.

(** The events of the callback on a matching window up to the [try]. *)
Definition announce (w : window) : list event :=
  [EvIsWindowVisible (hwnd w); EvGetWindowText (hwnd w);
   EvPrint ("Activating window: " ++ str.upper (text w))%string;
   EvGetWindowPlacement (hwnd w)].

(** ** Sample windows and desktops *)

Module Sample.

Definition notepad : window :=
  {| hwnd := 101; visible := true; text := "Untitled - Notepad++";
     showCmd := 1; ShowWindow_raises := None;
     SetForegroundWindow_raises := None |}.

Definition notepad_hidden : window :=
  {| hwnd := 102; visible := false; text := "Notepad++ Hidden";
     showCmd := 1; ShowWindow_raises := None;
     SetForegroundWindow_raises := None |}.

Definition outlook_minimized : window :=
  {| hwnd := 103; visible := true; text := "Inbox - Outlook";
     showCmd := 2; ShowWindow_raises := None;
     SetForegroundWindow_raises := None |}.

(** A window whose owner denies the foreground request. *)
Definition excel_denied : window :=
  {| hwnd := 104; visible := true; text := "Book1 - Excel";
     showCmd := 1; ShowWindow_raises := None;
     SetForegroundWindow_raises := Some "Access is denied." |}.

Definition desk (ws : list window) : desktop :=
  {| toplevel := ws; EnumWindows_raises := None |}.

Definition table : Texttable :=
  {| cols_align := ["l"; "l"; "l"; "l"];
     cols_valign := ["m"; "m"; "m"; "m"];
     rows := [head; ["E"; "Excel"; ""; ""]] |}.

End Sample.

(** ** Further notions *)

(** The string has a character that is not whitespace. *)
Fixpoint has_text (s : string) : bool :=
  match s with
  | EmptyString => false
  | String c r => negb (str.isspace c) || has_text r
  end.

(** The same desktop with an [EnumWindows] that returns normally. *)
Definition returning (d : desktop) : desktop :=
  {| toplevel := toplevel d; EnumWindows_raises := None |}.

(** The window a restore or foreground request is addressed to. *)
Definition request_target (e : event) : option HWND :=
  match e with
  | EvShowWindow h _ | EvSetForegroundWindow h => Some h
  | _ => None
  end.

(** The tables drawn, in order. *)
Definition tables_drawn (t : list event) : list Texttable :=
  flat_map (fun e => match e with EvPrintTable tb => [tb] | _ => [] end) t.

(** The events of the loop itself: clearing the console and drawing the
    table. *)
Definition loop_event (e : event) : bool :=
  match e with
  | EvPrintTable _ | EvSystem _ => true
  | _ => false
  end.

(** The number of letter keys at the front of the input. *)
Fixpoint leading_letters (input : list (byte * desktop)) : nat :=
  match input with
  | [] => 0
  | (b, _) :: input' =>
      if is_letter_key b then S (leading_letters input') else 0
  end.

(** The key/application pair in the left and in the right half of a row. *)
Definition left_pair (row : list string) : string * string :=
  (nth 0 row "", nth 1 row "").
Definition right_pair (row : list string) : string * string :=
  (nth 2 row "", nth 3 row "").

(** Evaluates the monadic glue around lists of events kept abstract and
    brings both sides to right-nested appends. *)
Ltac trace_normalize :=
  cbn -[announce requests failure_report skipped not_found_line String.append];
  rewrite ?app_nil_r; rewrite <- ?app_assoc;
  cbn -[announce requests failure_report skipped not_found_line String.append];
  rewrite ?app_nil_r; reflexivity.

(** * Properties *)

(** ** Text *)

Lemma prefix_app (n h : string) :
  prefix n h = true <-> exists b, h = (n ++ b)%string.
Proof.
  revert h; induction n as [|c n IH]; intros [|c' h]; simpl.
  - split; [intros _; now exists "" | reflexivity].
  - split; [intros _; now exists (String c' h) | reflexivity].
  - split; [discriminate | intros [b Hb]; discriminate].
  - destruct (Ascii.ascii_dec c c') as [->|Hne].
    + rewrite IH. split; intros [b Hb]; exists b; [now rewrite Hb | now inversion Hb].
    + split; [discriminate | intros [b Hb]; congruence].
Qed.

(** [str.contains] is substring containment. *)
Lemma contains_app (n h : string) :
  str.contains n h = true <-> exists a b, h = (a ++ n ++ b)%string.
Proof.
  induction h as [|c h IH]; cbn [str.contains].
  - rewrite orb_false_r, prefix_app. split.
    + intros [b Hb]. exists EmptyString, b. exact Hb.
    + intros [a [b Hab]]. destruct a; simpl in Hab; [now exists b | discriminate].
  - rewrite orb_true_iff, prefix_app, IH. split.
    + intros [[b Hb] | [a [b Hab]]].
      * exists EmptyString, b. exact Hb.
      * exists (String c a), b. simpl. now rewrite Hab.
    + intros [a [b Hab]]. destruct a as [|c' a]; simpl in Hab.
      * left. now exists b.
      * right. inversion Hab. now exists a, b.
Qed.

Lemma truthy_false (s : string) : str.truthy s = false <-> s = "".
Proof. destruct s; simpl; split; congruence. Qed.

Lemma truthy_true (s : string) : str.truthy s = true <-> s <> "".
Proof. destruct s; simpl; split; congruence. Qed.

(** ** Dictionaries and [clean_key_bindings] *)

Lemma dict_setitem_fresh (k v : string) (d : dict) :
  ~ In k (keys d) -> dict_setitem k v d = d ++ [(k, v)].
Proof.
  induction d as [|[k' v'] d IH]; simpl; intros Hk; [reflexivity|].
  destruct (String.eqb_spec k' k) as [->|_]; [tauto|].
  rewrite IH; tauto.
Qed.

Lemma keys_app (d1 d2 : dict) : keys (d1 ++ d2) = keys d1 ++ keys d2.
Proof. apply map_app. Qed.

Lemma keys_filter_incl (f : string * string -> bool) (d : dict) (k : string) :
  In k (keys (filter f d)) -> In k (keys d).
Proof.
  unfold keys. rewrite !in_map_iff. intros [x [Hx Hin]].
  apply filter_In in Hin. exists x. tauto.
Qed.

Lemma comprehension_filter (l acc : dict) :
  NoDup (keys acc ++ keys l) ->
  fold_left
    (fun acc kv =>
       if binding_valid kv then dict_setitem (fst kv) (snd kv) acc else acc)
    l acc
  = acc ++ filter binding_valid l.
Proof.
  revert acc; induction l as [|[k v] l IH]; intros acc Hnd; simpl.
  - now rewrite app_nil_r.
  - simpl in Hnd. pose proof (NoDup_remove _ _ _ Hnd) as [Hnd' Hk].
    destruct (binding_valid (k, v)) eqn:Hv; simpl.
    + rewrite dict_setitem_fresh by (intro; apply Hk, in_or_app; now left).
      rewrite IH.
      * now rewrite <- app_assoc.
      * rewrite keys_app; simpl. rewrite <- app_assoc. exact Hnd.
    + apply IH. exact Hnd'.
Qed.

Lemma clean_key_bindings_filter (bindings : dict) :
  dict_wf bindings ->
  clean_key_bindings bindings = filter binding_valid bindings.
Proof.
  intros Hwf. unfold clean_key_bindings, items.
  now rewrite comprehension_filter.
Qed.

Lemma binding_valid_iff (k v : string) :
  binding_valid (k, v) = true <-> str.strip k <> "" /\ str.strip v <> "".
Proof.
  unfold binding_valid; simpl. rewrite andb_true_iff, !negb_true_iff.
  split; intros [H1 H2].
  - split; intro E; rewrite E in *; discriminate.
  - split; apply String.eqb_neq; assumption.
Qed.

Lemma dict_wf_filter (f : string * string -> bool) (d : dict) :
  dict_wf d -> dict_wf (filter f d).
Proof.
  unfold dict_wf. induction d as [|[k v] d IH]; simpl; intros H; [constructor|].
  inversion H as [|? ? Hk Hnd]; subst.
  destruct (f (k, v)); simpl; [constructor|]; auto.
  intro Hin. apply Hk. eapply keys_filter_incl; eauto.
Qed.

Lemma dict_contains_getitem (k : string) (d : dict) :
  dict_contains k d = true <-> exists v, dict_getitem k d = Some v.
Proof.
  unfold dict_contains. induction d as [|[k' v'] d IH]; simpl.
  - split; [discriminate | intros [v Hv]; discriminate].
  - rewrite String.eqb_sym. destruct (String.eqb k' k); simpl.
    + split; [exists v'; reflexivity | reflexivity].
    + exact IH.
Qed.

Lemma dict_contains_false (k : string) (d : dict) :
  dict_contains k d = false <-> dict_getitem k d = None.
Proof.
  pose proof (dict_contains_getitem k d) as H.
  destruct (dict_contains k d), (dict_getitem k d) as [v|]; split; try congruence.
  - intros _. destruct (proj1 H eq_refl); discriminate.
  - intros _. exfalso. assert (false = true) by (apply H; now exists v). discriminate.
Qed.

(** How the source dispatches, by the value bound to the key. *)
Lemma dispatch_getitem (KEY_BINDINGS : dict) (key_input : string) (d : desktop) :
  dispatch KEY_BINDINGS key_input d =
  match dict_getitem key_input KEY_BINDINGS with
  | Some target => activate_app target d
  | None => []
  end.
Proof.
  unfold dispatch. destruct (dict_contains key_input KEY_BINDINGS) eqn:E; [reflexivity|].
  apply dict_contains_false in E. now rewrite E.
Qed.

(** C6: for every raw bindings mapping, [clean_key_bindings] drops exactly
    the entries whose key or fragment is empty after trimming, keeps every
    other entry unchanged, and keeps the kept entries in source order: the
    result is the source's item list filtered by that condition. *)
Theorem clean_key_bindings_spec (bindings : dict) :
  dict_wf bindings ->
  items (clean_key_bindings bindings) = filter binding_valid (items bindings)
  /\ (forall k v,
        In (k, v) (items (clean_key_bindings bindings)) <->
        In (k, v) (items bindings) /\ str.strip k <> "" /\ str.strip v <> "").
Proof.
  intros Hwf. pose proof (clean_key_bindings_filter bindings Hwf) as E.
  split; [exact E|].
  intros k v. unfold items. rewrite E, filter_In, binding_valid_iff. tauto.
Qed.

Lemma clean_key_bindings_spec_witness :
  dict_wf [("A", ""); ("B", "X")] /\
  items (clean_key_bindings [("A", ""); ("B", "X")]) = [("B", "X")].
Proof.
  assert (Hwf : dict_wf [("A", ""); ("B", "X")]).
  { repeat constructor; simpl; intuition discriminate. }
  split; [exact Hwf|].
  exact (proj1 (clean_key_bindings_spec _ Hwf)).
Defined.

(** ** [create_table] *)

Lemma row_count_new_ceil (n : nat) : row_count_new_of n = ceil_half n.
Proof.
  unfold row_count_new_of, ceil_half.
  pose proof (Nat.div_mod_eq n 2) as Hn.
  pose proof (Nat.mod_upper_bound n 2 ltac:(discriminate)) as Hm.
  pose proof (Nat.div_mod_eq (n + 1) 2) as Hn1.
  pose proof (Nat.mod_upper_bound (n + 1) 2 ltac:(discriminate)) as Hm1.
  destruct (Nat.eqb_spec (n mod 2) 0); cbn [negb]; lia.
Qed.

Lemma ceil_half_bounds (n : nat) : n <= 2 * ceil_half n <= n + 1.
Proof.
  unfold ceil_half.
  pose proof (Nat.div_mod_eq (n + 1) 2) as Hn1.
  pose proof (Nat.mod_upper_bound (n + 1) 2 ltac:(discriminate)) as Hm1.
  lia.
Qed.

Lemma ceil_half_le (n : nat) : ceil_half n <= n.
Proof. pose proof (ceil_half_bounds n). destruct n; [reflexivity | lia]. Qed.

Lemma ceil_half_odd (n : nat) : n mod 2 = 1 -> 2 * ceil_half n = n + 1.
Proof.
  unfold ceil_half. intros Hodd.
  pose proof (Nat.div_mod_eq n 2) as Hn.
  pose proof (Nat.div_mod_eq (n + 1) 2) as Hn1.
  pose proof (Nat.mod_upper_bound (n + 1) 2 ltac:(discriminate)) as Hm1.
  lia.
Qed.

Lemma fill_row_layout (data : list (string * string)) (h i : nat)
    (rows : list (list string)) :
  i < List.length data ->
  fill_row data (List.length data) h rows i = Some (rows ++ [layout_row data h i]).
Proof.
  intros Hi. unfold fill_row, layout_row.
  rewrite (nth_error_nth' data ("", "") Hi).
  destruct (nth i data ("", "")) as [col_a col_b]; simpl.
  destruct (Nat.ltb_spec (i + h) (List.length data)) as [Hlt|Hge].
  - rewrite (nth_error_nth' data ("", "") Hlt).
    destruct (nth (i + h) data ("", "")); reflexivity.
  - rewrite (nth_overflow data ("", "") Hge). reflexivity.
Qed.

Lemma fill_cells_layout (data : list (string * string)) (h len a : nat)
    (rows : list (list string)) :
  a + len <= List.length data ->
  fill_cells data (List.length data) h (seq a len) rows
  = Some (rows ++ map (layout_row data h) (seq a len)).
Proof.
  revert a rows; induction len as [|len IH]; intros a rows Hb; simpl.
  - now rewrite app_nil_r.
  - rewrite fill_row_layout by lia. rewrite IH by lia.
    now rewrite <- app_assoc.
Qed.

Lemma create_table_layout (KEY_BINDINGS : dict) :
  let data := items (clean_key_bindings KEY_BINDINGS) in
  let h := ceil_half (List.length data) in
  create_table KEY_BINDINGS =
  Some {| cols_align := ["l"; "l"; "l"; "l"];
          cols_valign := ["m"; "m"; "m"; "m"];
          rows := head :: map (layout_row data h) (seq 0 h) |}.
Proof.
  intros data h. unfold create_table. fold data.
  rewrite row_count_new_ceil. fold h.
  rewrite fill_cells_layout by (simpl; apply ceil_half_le).
  reflexivity.
Qed.

Lemma nth_error_layout (data : list (string * string)) (h i : nat) :
  i < h ->
  nth_error (map (layout_row data h) (seq 0 h)) i = Some (layout_row data h i).
Proof.
  intros Hi. rewrite nth_error_map, nth_error_seq.
  destruct (Nat.ltb_spec i h); [reflexivity | lia].
Qed.

(** C9: for every raw bindings mapping, [create_table] raises no
    [IndexError]; with [n] filtered entries the table is the header followed
    by exactly ceil(n/2) rows, entries [0 .. ceil(n/2)-1] fill the left
    key/application cells, the remaining entries fill the right cells of rows
    [0 ..], for odd [n] the right cells of the last row are empty strings,
    and an empty registry gives a header-only table. *)
Theorem create_table_shape (KEY_BINDINGS : dict) :
  let data := items (clean_key_bindings KEY_BINDINGS) in
  let n := List.length data in
  exists table body,
    create_table KEY_BINDINGS = Some table /\
    rows table = head :: body /\
    List.length body = ceil_half n /\
    (forall i, i < ceil_half n ->
       exists k v c d,
         nth_error data i = Some (k, v) /\
         nth_error body i = Some [k; v; c; d]) /\
    (forall j, ceil_half n <= j < n ->
       exists k v a b,
         nth_error data j = Some (k, v) /\
         nth_error body (j - ceil_half n) = Some [a; b; k; v]) /\
    (n mod 2 = 1 ->
       exists a b, nth_error body (ceil_half n - 1) = Some [a; b; ""; ""]) /\
    (n = 0 -> rows table = [head]).
Proof.
  intros data n. set (h := ceil_half n).
  pose proof (ceil_half_bounds n) as Hb. fold h in Hb.
  pose proof (ceil_half_le n) as Hle. fold h in Hle.
  eexists. exists (map (layout_row data h) (seq 0 h)).
  split; [apply create_table_layout|].
  split; [reflexivity|].
  split; [now rewrite length_map, length_seq|].
  split; [|split; [|split]].
  - intros i Hi. rewrite nth_error_layout by exact Hi.
    assert (Hin : i < List.length data) by (fold n; lia).
    rewrite (nth_error_nth' data ("", "") Hin). unfold layout_row.
    destruct (nth i data ("", "")) as [k v]. simpl. eauto 8.
  - intros j [Hj1 Hj2]. rewrite nth_error_layout by lia.
    rewrite (nth_error_nth' data ("", "") Hj2). unfold layout_row.
    replace (j - h + h) with j by lia.
    destruct (nth j data ("", "")) as [k v]. simpl. eauto 8.
  - intros Hodd. apply ceil_half_odd in Hodd. fold h in Hodd.
    rewrite nth_error_layout by lia. unfold layout_row.
    assert (Hov : List.length data <= h - 1 + h) by (fold n; lia).
    rewrite (nth_overflow data ("", "") Hov).
    simpl. eauto.
  - intros Hn. assert (Hh : h = 0) by lia.
    change (head :: map (layout_row data h) (seq 0 h) = [head]).
    rewrite Hh. reflexivity.
Qed.

Lemma create_table_shape_witness :
  exists table,
    create_table Config.KEY_BINDINGS = Some table /\
    List.length (rows table) = 6.
Proof.
  destruct (create_table_shape Config.KEY_BINDINGS)
    as [table [body [Ht [Hr [Hl _]]]]].
  exists table. split; [exact Ht|].
  rewrite Hr. simpl. rewrite Hl. reflexivity.
Defined.

(** ** The callback and the enumeration *)

Lemma try_activate_run (w : window) (found : bool) :
  try_activate w (is_minimized w) found =
  (requests w ++ failure_report w,
   match activation_failure w with Some _ => found | None => true end,
   inr tt).
Proof.
  unfold try_activate, requests, failure_report, activation_failure,
    ShowWindow, SetForegroundWindow, try_except, bind, emit, or_raise, raise,
    ret, set_found, print.
  destruct (is_minimized w), (ShowWindow_raises w),
    (SetForegroundWindow_raises w); reflexivity.
Qed.

Lemma enum_callback_skip (target : string) (w : window) (found : bool) :
  matches target w = false ->
  enum_callback target w found = (skipped w, found, inr true).
Proof.
  unfold matches, enum_callback, skipped, IsWindowVisible, GetWindowText,
    bind, emit, ret.
  destruct (visible w); simpl; [intros ->|intros _]; reflexivity.
Qed.

Lemma enum_callback_match (target : string) (w : window) (found : bool) :
  matches target w = true ->
  enum_callback target w found =
  (announce w ++ requests w ++ failure_report w,
   match activation_failure w with Some _ => found | None => true end,
   inr false).
Proof.
  unfold matches. intros Hm. apply andb_true_iff in Hm as [Hv Hc].
  unfold enum_callback, IsWindowVisible, GetWindowText, GetWindowPlacement,
    print, bind, emit, ret.
  rewrite Hv; simpl. rewrite Hc; simpl.
  change (Z.eqb (showCmd w) SW_SHOWMINIMIZED) with (is_minimized w).
  rewrite try_activate_run. simpl. now rewrite app_nil_r.
Qed.

Lemma enumerate_no_match (target : string) (ws : list window) (found : bool) :
  forallb (fun x => negb (matches target x)) ws = true ->
  enumerate (enum_callback target) ws found = (flat_map skipped ws, found, inr tt).
Proof.
  induction ws as [|w ws IH]; simpl; intros H; [reflexivity|].
  apply andb_true_iff in H as [Hw Hws]. apply negb_true_iff in Hw.
  unfold bind. rewrite enum_callback_skip by exact Hw. rewrite (IH Hws). reflexivity.
Qed.

Lemma enumerate_first_match (target : string) (pre post : list window)
    (w : window) (found : bool) :
  forallb (fun x => negb (matches target x)) pre = true ->
  matches target w = true ->
  enumerate (enum_callback target) (pre ++ w :: post) found =
  (flat_map skipped pre ++ announce w ++ requests w ++ failure_report w,
   match activation_failure w with Some _ => found | None => true end,
   inr tt).
Proof.
  intros Hpre Hw. induction pre as [|x pre IH]; simpl.
  - unfold bind. rewrite enum_callback_match by exact Hw. simpl.
    now rewrite app_nil_r.
  - simpl in Hpre. apply andb_true_iff in Hpre as [Hx Hpre].
    apply negb_true_iff in Hx.
    unfold bind. rewrite enum_callback_skip by exact Hx. rewrite (IH Hpre).
    now rewrite app_assoc.
Qed.

(** Splitting a window list at its first match. *)
Lemma find_split (f : window -> bool) (ws : list window) (w : window) :
  find f ws = Some w ->
  exists pre post,
    ws = pre ++ w :: post /\
    forallb (fun x => negb (f x)) pre = true /\ f w = true.
Proof.
  induction ws as [|x ws IH]; simpl; [discriminate|].
  destruct (f x) eqn:Hx.
  - intros [= ->]. exists [], ws. auto.
  - intros Hf. destruct (IH Hf) as [pre [post [-> [Hpre Hw]]]].
    exists (x :: pre), post. simpl. rewrite Hx. auto.
Qed.

Lemma find_first (f : window -> bool) (pre post : list window) (w : window) :
  forallb (fun x => negb (f x)) pre = true -> f w = true ->
  find f (pre ++ w :: post) = Some w.
Proof.
  induction pre as [|x pre IH]; simpl; intros Hpre Hw.
  - now rewrite Hw.
  - apply andb_true_iff in Hpre as [Hx Hpre]. apply negb_true_iff in Hx.
    rewrite Hx. auto.
Qed.

Lemma find_none_forallb (f : window -> bool) (ws : list window) :
  find f ws = None <-> forallb (fun x => negb (f x)) ws = true.
Proof.
  induction ws as [|x ws IH]; simpl; [tauto|].
  destruct (f x); simpl; [split; discriminate | exact IH].
Qed.

(** The whole trace of a call that finds a match. *)
Lemma activate_app_match (target : string) (d : desktop)
    (pre post : list window) (w : window) :
  target <> "" ->
  toplevel d = pre ++ w :: post ->
  forallb (fun x => negb (matches target x)) pre = true ->
  matches target w = true ->
  activate_app target d =
  EvEnumWindows :: flat_map skipped pre ++ announce w ++ requests w ++
  failure_report w ++ enumeration_report d ++
  match activation_failure w with
  | Some _ => [EvPrint (not_found_line target)]
  | None => []
  end.
Proof.
  intros Ht Hd Hpre Hw. apply truthy_true in Ht.
  unfold activate_app, activate_app_body, EnumWindows, enumeration_report.
  rewrite Ht; simpl.
  unfold try_except, bind, emit, get_found, or_raise, raise, ret, print.
  rewrite Hd. rewrite enumerate_first_match by assumption.
  destruct (activation_failure w), (EnumWindows_raises d); trace_normalize.
Qed.

(** The whole trace of a call that finds none. *)
Lemma activate_app_no_match (target : string) (d : desktop) :
  target <> "" ->
  forallb (fun x => negb (matches target x)) (toplevel d) = true ->
  activate_app target d =
  EvEnumWindows :: flat_map skipped (toplevel d) ++ enumeration_report d ++
  [EvPrint (not_found_line target)].
Proof.
  intros Ht Hno. apply truthy_true in Ht.
  unfold activate_app, activate_app_body, EnumWindows, enumeration_report.
  rewrite Ht; simpl.
  unfold try_except, bind, emit, get_found, or_raise, raise, ret, print.
  rewrite enumerate_no_match by assumption.
  destruct (EnumWindows_raises d); trace_normalize.
Qed.

(** ** Reading the traces of [activate_app] *)

Section Projections.

Variable A : Type.
Variable pick : event -> list A.

Lemma pick_skipped_nil (ws : list window) :
  (forall w, flat_map pick (skipped w) = []) ->
  flat_map pick (flat_map skipped ws) = [].
Proof.
  intros H. induction ws as [|w ws IH]; simpl; [reflexivity|].
  now rewrite flat_map_app, H, IH.
Qed.

End Projections.

Lemma inspected_skipped (ws : list window) :
  inspected (flat_map skipped ws) = map hwnd ws.
Proof.
  unfold inspected. induction ws as [|w ws IH]; simpl; [reflexivity|].
  rewrite flat_map_app, IH. unfold skipped. destruct (visible w); reflexivity.
Qed.

Lemma titles_read_skipped (ws : list window) :
  titles_read (flat_map skipped ws) = map hwnd (filter visible ws).
Proof.
  unfold titles_read. induction ws as [|w ws IH]; simpl; [reflexivity|].
  rewrite flat_map_app, IH. unfold skipped.
  destruct (visible w); reflexivity.
Qed.

Lemma selected_skipped (ws : list window) : selected (flat_map skipped ws) = [].
Proof.
  apply pick_skipped_nil. intros w. unfold skipped.
  destruct (visible w); reflexivity.
Qed.

Lemma output_skipped (ws : list window) : output (flat_map skipped ws) = [].
Proof.
  apply pick_skipped_nil. intros w. unfold skipped.
  destruct (visible w); reflexivity.
Qed.

Lemma transitions_skipped (ws : list window) :
  transitions (flat_map skipped ws) = [].
Proof.
  unfold transitions. induction ws as [|w ws IH]; simpl; [reflexivity|].
  rewrite filter_app, IH. unfold skipped. destruct (visible w); reflexivity.
Qed.

Lemma requests_only_transitions (w : window) :
  inspected (requests w) = [] /\ titles_read (requests w) = [] /\
  selected (requests w) = [] /\ output (requests w) = [] /\
  transitions (requests w) = requests w.
Proof.
  unfold requests. destruct (is_minimized w), (ShowWindow_raises w); cbn; auto.
Qed.

Lemma failure_report_only_output (w : window) :
  inspected (failure_report w) = [] /\ titles_read (failure_report w) = [] /\
  selected (failure_report w) = [] /\ transitions (failure_report w) = [].
Proof.
  unfold failure_report. destruct (activation_failure w); cbn; auto.
Qed.

Lemma enumeration_report_only_output (d : desktop) :
  inspected (enumeration_report d) = [] /\
  titles_read (enumeration_report d) = [] /\
  selected (enumeration_report d) = [] /\
  transitions (enumeration_report d) = [].
Proof.
  unfold enumeration_report. destruct (EnumWindows_raises d); cbn; auto.
Qed.

(** The projections of the trace of a call that finds a match. *)
Lemma activate_app_match_view (target : string) (d : desktop)
    (pre post : list window) (w : window) :
  target <> "" ->
  toplevel d = pre ++ w :: post ->
  forallb (fun x => negb (matches target x)) pre = true ->
  matches target w = true ->
  let t := activate_app target d in
  inspected t = map hwnd (pre ++ [w]) /\
  titles_read t = map hwnd (filter visible (pre ++ [w])) /\
  selected t = [hwnd w] /\
  transitions t = requests w.
Proof.
  intros Ht Hd Hpre Hw t. subst t.
  rewrite (activate_app_match target d pre post w Ht Hd Hpre Hw).
  destruct (requests_only_transitions w) as [R1 [R2 [R3 [_ R5]]]].
  destruct (failure_report_only_output w) as [F1 [F2 [F3 F4]]].
  destruct (enumeration_report_only_output d) as [E1 [E2 [E3 E4]]].
  assert (Hv : visible w = true).
  { unfold matches in Hw. now apply andb_true_iff in Hw as [Hv _]. }
  unfold inspected, titles_read, selected, transitions in *.
  cbn [flat_map filter is_transition app].
  rewrite !flat_map_app, !filter_app, !map_app.
  fold (inspected (flat_map skipped pre)).
  fold (titles_read (flat_map skipped pre)).
  fold (selected (flat_map skipped pre)).
  fold (transitions (flat_map skipped pre)).
  rewrite inspected_skipped, titles_read_skipped, selected_skipped,
    transitions_skipped.
  rewrite R1, R2, R3, R5, F1, F2, F3, F4, E1, E2, E3, E4.
  cbn [filter]. rewrite Hv.
  destruct (activation_failure w); cbn; rewrite ?app_nil_r; auto.
Qed.

Lemma forallb_not_matches (fragment : string) (ws : list window) :
  (forall x, In x ws -> matches fragment x = false) ->
  forallb (fun x => negb (matches fragment x)) ws = true.
Proof.
  intros H. apply forallb_forall. intros x Hx. now rewrite (H x Hx).
Qed.

(** C1: for every non-empty fragment and every sequence of top-level
    windows, [activate_app] selects exactly the first window, in enumeration
    order, that is visible and whose title contains the fragment compared in
    upper case; the title of a window that is not visible is never read, and
    the enumeration stops at the match: the windows inspected are those up to
    the match, requests go to the match only, and the trace does not depend
    on the windows after it. *)
Theorem activate_first_visible_match (fragment : string) (d : desktop) :
  fragment <> "" ->
  let t := activate_app fragment d in
  selected t =
    match find (matches fragment) (toplevel d) with
    | Some w => [hwnd w]
    | None => []
    end
  /\ (forall w, find (matches fragment) (toplevel d) = Some w ->
        visible w = true /\
        exists a b,
          str.upper (text w) = (a ++ str.upper fragment ++ b)%string)
  /\ (forall pre w post,
        toplevel d = pre ++ w :: post ->
        (forall x, In x pre -> matches fragment x = false) ->
        matches fragment w = true ->
        inspected t = map hwnd (pre ++ [w]) /\
        titles_read t = map hwnd (filter visible (pre ++ [w])) /\
        (forall e, In e (transitions t) ->
           e = EvShowWindow (hwnd w) SW_RESTORE \/
           e = EvSetForegroundWindow (hwnd w)) /\
        t = activate_app fragment (with_toplevel d (pre ++ [w]))).
Proof.
  intros Hf t. split; [|split].
  - destruct (find (matches fragment) (toplevel d)) as [w|] eqn:Hfind.
    + destruct (find_split _ _ _ Hfind) as [pre [post [Hd [Hpre Hw]]]].
      apply (activate_app_match_view fragment d pre post w Hf Hd Hpre Hw).
    + apply find_none_forallb in Hfind. subst t.
      rewrite (activate_app_no_match fragment d Hf Hfind).
      unfold selected. cbn [flat_map app]. rewrite flat_map_app.
      fold (selected (flat_map skipped (toplevel d))).
      rewrite selected_skipped.
      destruct (enumeration_report_only_output d) as [_ [_ [E3 _]]].
      unfold selected in E3. rewrite flat_map_app, E3. reflexivity.
  - intros w Hfind. apply find_some in Hfind as [_ Hm].
    unfold matches in Hm. apply andb_true_iff in Hm as [Hv Hc].
    split; [exact Hv|]. now apply contains_app.
  - intros pre w post Hd Hpre Hw.
    apply forallb_not_matches in Hpre.
    destruct (activate_app_match_view fragment d pre post w Hf Hd Hpre Hw)
      as [Hi [Ht [_ Hr]]].
    split; [exact Hi|]. split; [exact Ht|]. split.
    + fold t in Hr. rewrite Hr. unfold requests. intros e He.
      destruct (is_minimized w), (ShowWindow_raises w); simpl in He;
        intuition auto.
    + subst t.
      rewrite (activate_app_match fragment d pre post w Hf Hd Hpre Hw).
      rewrite (activate_app_match fragment (with_toplevel d (pre ++ [w]))
                 pre [] w Hf eq_refl Hpre Hw).
      reflexivity.
Qed.

Lemma activate_first_visible_match_witness :
  "Notepad++" <> "" /\
  selected
    (activate_app "Notepad++"
       (Sample.desk [Sample.notepad; Sample.notepad_hidden])) = [101%Z].
Proof.
  assert (Hf : "Notepad++" <> "") by discriminate.
  split; [exact Hf|].
  exact (proj1 (activate_first_visible_match "Notepad++"
                  (Sample.desk [Sample.notepad; Sample.notepad_hidden]) Hf)).
Defined.

(** C4: for every non-empty fragment and every window sequence in which no
    visible window's title contains the fragment, [activate_app] passes over
    every window of the enumeration, selects none, issues no request, and
    ends by printing the not-found line for the fragment, which is its only
    output when [EnumWindows] itself returns normally. *)
Theorem activate_not_found (fragment : string) (d : desktop) :
  fragment <> "" ->
  (forall w, In w (toplevel d) -> matches fragment w = false) ->
  let t := activate_app fragment d in
  t = EvEnumWindows :: flat_map skipped (toplevel d) ++ enumeration_report d ++
      [EvPrint (not_found_line fragment)]
  /\ inspected t = map hwnd (toplevel d)
  /\ selected t = []
  /\ transitions t = []
  /\ (exists lines, output t = lines ++ [not_found_line fragment])
  /\ (EnumWindows_raises d = None -> output t = [not_found_line fragment]).
Proof.
  intros Hf Hno t. apply forallb_not_matches in Hno.
  pose proof (activate_app_no_match fragment d Hf Hno) as E. fold t in E.
  destruct (enumeration_report_only_output d) as [E1 [_ [E3 E4]]].
  split; [exact E|]. rewrite E.
  unfold inspected, selected, transitions, output in *.
  cbn [flat_map filter is_transition app].
  rewrite !flat_map_app, !filter_app.
  fold (inspected (flat_map skipped (toplevel d))).
  fold (selected (flat_map skipped (toplevel d))).
  fold (transitions (flat_map skipped (toplevel d))).
  fold (output (flat_map skipped (toplevel d))).
  rewrite inspected_skipped, selected_skipped, transitions_skipped,
    output_skipped, E1, E3, E4.
  cbn [flat_map filter is_transition app]. rewrite !app_nil_r.
  repeat split; try reflexivity.
  - eexists. reflexivity.
  - intros Hn. unfold enumeration_report. rewrite Hn. reflexivity.
Qed.

Lemma activate_not_found_witness :
  "Word" <> "" /\
  output
    (activate_app "Word"
       (Sample.desk [Sample.notepad; Sample.notepad_hidden]))
  = [not_found_line "Word"].
Proof.
  assert (Hf : "Word" <> "") by discriminate.
  split; [exact Hf|].
  refine (proj2 (proj2 (proj2 (proj2 (proj2
    (activate_not_found "Word"
       (Sample.desk [Sample.notepad; Sample.notepad_hidden]) Hf _))))) eq_refl).
  intros w [<-|[<-|[]]]; reflexivity.
Defined.

(** C5: for the empty fragment [activate_app] is a no-op on every desktop:
    no [EnumWindows] call, no restore or foreground request, no output, in
    fact no event at all. *)
Theorem activate_app_empty (d : desktop) :
  let t := activate_app "" d in
  t = [] /\ enumerations t = 0 /\ transitions t = [] /\ output t = [].
Proof. repeat split. Qed.

(** C2: for every matched window a restore request is issued first if and
    only if its show state is minimized, and a foreground request is then
    issued whether or not a restore was issued; each of the two calls occurs
    exactly once, in that order, and no other request is made.  The
    statement is about a call whose restore request returns; a request that
    raises is the matter of C3, and a foreground request that raises is
    still issued once. *)
Theorem matched_window_requests (fragment : string) (d : desktop) (w : window) :
  fragment <> "" ->
  find (matches fragment) (toplevel d) = Some w ->
  (is_minimized w = true -> ShowWindow_raises w = None) ->
  let t := activate_app fragment d in
  transitions t =
    (if is_minimized w then [EvShowWindow (hwnd w) SW_RESTORE] else []) ++
    [EvSetForegroundWindow (hwnd w)]
  /\ (In (EvShowWindow (hwnd w) SW_RESTORE) (transitions t) <->
      is_minimized w = true)
  /\ count_occ Z.eq_dec
       (flat_map (fun e => match e with
                           | EvSetForegroundWindow h => [h]
                           | _ => []
                           end) t)
       (hwnd w) = 1.
Proof.
  intros Hf Hfind Hret t.
  destruct (find_split _ _ _ Hfind) as [pre [post [Hd [Hpre Hw]]]].
  destruct (activate_app_match_view fragment d pre post w Hf Hd Hpre Hw)
    as [_ [_ [_ Hr]]].
  fold t in Hr.
  assert (Ht : transitions t =
               (if is_minimized w then [EvShowWindow (hwnd w) SW_RESTORE] else [])
               ++ [EvSetForegroundWindow (hwnd w)]).
  { rewrite Hr. unfold requests.
    destruct (is_minimized w); [rewrite (Hret eq_refl)|]; reflexivity. }
  split; [exact Ht|]. split.
  - rewrite Ht. destruct (is_minimized w); simpl.
    + split; auto.
    + split; [intros [H|[]]; discriminate | discriminate].
  - assert (Hfg : forall l,
              flat_map (fun e => match e with
                                 | EvSetForegroundWindow h => [h]
                                 | _ => []
                                 end) l
              = flat_map (fun e => match e with
                                   | EvSetForegroundWindow h => [h]
                                   | _ => []
                                   end) (transitions l)).
    { induction l as [|e l IH]; [reflexivity|].
      unfold transitions in *. cbn [filter flat_map].
      destruct e; cbn [is_transition flat_map app]; now rewrite IH. }
    rewrite Hfg, Ht.
    destruct (is_minimized w); cbn [flat_map app count_occ];
      destruct (Z.eq_dec (hwnd w) (hwnd w)); congruence.
Qed.

Lemma matched_window_requests_witness :
  "Outlook" <> "" /\
  find (matches "Outlook") (toplevel (Sample.desk [Sample.outlook_minimized]))
    = Some Sample.outlook_minimized /\
  (is_minimized Sample.outlook_minimized = true ->
   ShowWindow_raises Sample.outlook_minimized = None) /\
  transitions (activate_app "Outlook" (Sample.desk [Sample.outlook_minimized]))
    = [EvShowWindow 103 SW_RESTORE; EvSetForegroundWindow 103].
Proof.
  assert (Hf : "Outlook" <> "") by discriminate.
  assert (Hret : is_minimized Sample.outlook_minimized = true ->
                 ShowWindow_raises Sample.outlook_minimized = None)
    by reflexivity.
  split; [exact Hf|]. split; [reflexivity|]. split; [exact Hret|].
  exact (proj1 (matched_window_requests "Outlook"
                  (Sample.desk [Sample.outlook_minimized])
                  Sample.outlook_minimized Hf eq_refl Hret)).
Defined.

(** C3: when the restore or foreground request on the matched window
    raises, [activate_app] catches it and prints the error line, but it
    goes on to print the not-found line for the fragment as well: the
    output is the announcement, the error, the report of [EnumWindows] if it
    raised, and the not-found line. *)
Theorem activation_failure_output (fragment : string) (d : desktop)
    (w : window) (e : string) :
  fragment <> "" ->
  find (matches fragment) (toplevel d) = Some w ->
  activation_failure w = Some e ->
  output (activate_app fragment d) =
    [("Activating window: " ++ str.upper (text w))%string;
     ("Error activating window: " ++ e)%string] ++
    output (enumeration_report d) ++
    [not_found_line fragment].
Proof.
  intros Hf Hfind He.
  destruct (find_split _ _ _ Hfind) as [pre [post [Hd [Hpre Hw]]]].
  rewrite (activate_app_match fragment d pre post w Hf Hd Hpre Hw).
  destruct (requests_only_transitions w) as [_ [_ [_ [R4 _]]]].
  unfold failure_report. rewrite He.
  unfold output in *. cbn [flat_map app].
  rewrite !flat_map_app.
  fold (output (flat_map skipped pre)). rewrite output_skipped, R4.
  unfold announce. cbn [flat_map app]. rewrite flat_map_app. reflexivity.
Qed.

Lemma activation_failure_output_witness :
  "Excel" <> "" /\
  output (activate_app "Excel" (Sample.desk [Sample.excel_denied])) =
    ["Activating window: BOOK1 - EXCEL";
     "Error activating window: Access is denied.";
     not_found_line "Excel"].
Proof.
  assert (Hf : "Excel" <> "") by discriminate.
  split; [exact Hf|].
  exact (activation_failure_output "Excel" (Sample.desk [Sample.excel_denied])
           Sample.excel_denied "Access is denied." Hf eq_refl eq_refl).
Defined.

(** ** Keys *)

Lemma is_letter_upper_char (c : ascii) :
  str.is_letter (str.upper_char c) = str.is_letter c.
Proof. destruct c as [[|] [|] [|] [|] [|] [|] [|] [|]]; reflexivity. Qed.

Lemma is_letter_lower_char (c : ascii) :
  str.is_letter (str.lower_char c) = str.is_letter c.
Proof. destruct c as [[|] [|] [|] [|] [|] [|] [|] [|]]; reflexivity. Qed.

Lemma letter_not_space (c : ascii) :
  str.is_letter c = true -> str.isspace c = false.
Proof. destruct c as [[|] [|] [|] [|] [|] [|] [|] [|]]; cbv; congruence. Qed.

Lemma upper_char_idempotent (c : ascii) :
  str.upper_char (str.upper_char c) = str.upper_char c.
Proof. destruct c as [[|] [|] [|] [|] [|] [|] [|] [|]]; reflexivity. Qed.

Lemma all_letters_lower (s : string) :
  str.all_letters (str.lower s) = str.all_letters s.
Proof.
  induction s as [|c s IH]; simpl; [reflexivity|].
  now rewrite is_letter_lower_char, IH.
Qed.

(** Capitalising does not change whether a string is alphabetic. *)
Lemma isalpha_capitalize (s : string) :
  str.isalpha (str.capitalize s) = str.isalpha s.
Proof.
  destruct s as [|c s]; simpl; [reflexivity|].
  now rewrite is_letter_upper_char, all_letters_lower.
Qed.

Lemma decode_single (b : byte) (s : string) :
  decode b = Some s -> s = String (ascii_of_byte b) EmptyString.
Proof.
  unfold decode. destruct (Byte.to_nat b <? 128); congruence.
Qed.

Lemma strip_letter (c : ascii) :
  str.is_letter c = true ->
  str.strip (String c EmptyString) = String c EmptyString.
Proof.
  intros H. apply letter_not_space in H.
  unfold str.strip, str.rstrip. simpl. rewrite H. simpl. now rewrite H.
Qed.

(** One turn of the loop on a letter key. *)
Lemma start_loop_letter (KEY_BINDINGS : dict) (table : Texttable) (b : byte)
    (d : desktop) (rest : list (byte * desktop)) :
  is_letter_key b = true ->
  start_loop KEY_BINDINGS table ((b, d) :: rest) =
  ([EvSystem "cls"; EvPrintTable table] ++
   dispatch KEY_BINDINGS
     (String (str.upper_char (ascii_of_byte b)) EmptyString) d ++
   fst (start_loop KEY_BINDINGS table rest),
   snd (start_loop KEY_BINDINGS table rest)).
Proof.
  unfold is_letter_key. intros H.
  cbn [start_loop]. destruct (decode b) as [s|] eqn:Hd; [|discriminate].
  rewrite isalpha_capitalize, H. cbn [negb].
  rewrite (decode_single b s Hd).
  destruct (start_loop KEY_BINDINGS table rest) as [t st]. reflexivity.
Qed.

(** One turn of the loop on any other key. *)
Lemma non_letter_stops (KEY_BINDINGS : dict) (table : Texttable)
    (b : byte) (d : desktop) (rest : list (byte * desktop)) :
  is_letter_key b = false ->
  start_loop KEY_BINDINGS table ((b, d) :: rest) =
    ([EvSystem "cls"; EvPrintTable table],
     Terminated
       match decode b with
       | Some _ => Break
       | None => Uncaught "UnicodeDecodeError"
       end).
Proof.
  unfold is_letter_key. intros H. cbn [start_loop].
  destruct (decode b) as [s|] eqn:Hd; [|reflexivity].
  rewrite isalpha_capitalize, H. reflexivity.
Qed.

(** C7: whatever the bindings, a keystroke that is not an alphabetic
    character ends the loop: after the rendering of that turn nothing is
    dispatched, the remaining keys are not read, and the loop is
    [Terminated], by [break] for every key that decodes to a character. *)
Theorem non_letter_key_terminates (KEY_BINDINGS : dict) (table : Texttable)
    (b : byte) (d : desktop) (rest : list (byte * desktop)) :
  is_letter_key b = false ->
  exists how,
    start_loop KEY_BINDINGS table ((b, d) :: rest) =
      ([EvSystem "cls"; EvPrintTable table], Terminated how) /\
    (forall s, decode b = Some s -> how = Break).
Proof.
  intros H. eexists. split; [apply non_letter_stops; exact H|].
  intros s Hs. now rewrite Hs.
Qed.

Lemma non_letter_key_terminates_witness :
  is_letter_key "5"%byte = false /\
  exists how,
    start_loop Config.KEY_BINDINGS Sample.table
      [("5"%byte, Sample.desk [Sample.notepad]);
       ("i"%byte, Sample.desk [Sample.notepad])]
    = ([EvSystem "cls"; EvPrintTable Sample.table], Terminated how) /\
    (forall s, decode "5"%byte = Some s -> how = Break).
Proof.
  split; [reflexivity|].
  apply (non_letter_key_terminates Config.KEY_BINDINGS Sample.table "5"%byte).
  reflexivity.
Defined.

(** ** Lookup in the raw and in the filtered bindings *)

Lemma dict_getitem_notin (k : string) (d : dict) :
  ~ In k (keys d) -> dict_getitem k d = None.
Proof.
  induction d as [|[k' v'] d IH]; simpl; intros H; [reflexivity|].
  destruct (String.eqb_spec k' k) as [->|_]; [tauto|]. apply IH. tauto.
Qed.

Section RawAgainstRegistry.

Variable raw : dict.
Hypothesis raw_wf : dict_wf raw.
Hypothesis fragments_plain :
  forall k v, In (k, v) (items raw) -> v = "" \/ str.strip v <> "".

Lemma lookup_filtered (key : string) (d : desktop) :
  str.strip key <> "" ->
  match dict_getitem key raw with
  | Some target => activate_app target d
  | None => []
  end =
  match dict_getitem key (filter binding_valid raw) with
  | Some target => activate_app target d
  | None => []
  end.
Proof.
  intros Hkey. revert raw_wf fragments_plain. unfold dict_wf, items.
  induction raw as [|[k' v'] r IH]; intros Hwf Hplain; [reflexivity|].
  simpl in Hwf. inversion Hwf as [|? ? Hk Hr]; subst.
  assert (Hplain' : forall k v, In (k, v) r -> v = "" \/ str.strip v <> "")
    by (intros k v Hin; apply (Hplain k v); now right).
  cbn [filter dict_getitem].
  destruct (String.eqb_spec k' key) as [->|Hne].
  - destruct (binding_valid (key, v')) eqn:Hv.
    + cbn [dict_getitem]. now rewrite String.eqb_refl.
    + rewrite dict_getitem_notin
        by (intro Hin; apply Hk; eapply keys_filter_incl; exact Hin).
      destruct (Hplain key v' (or_introl eq_refl)) as [->|Hs]; [reflexivity|].
      assert (binding_valid (key, v') = true)
        by (apply binding_valid_iff; split; assumption).
      congruence.
  - destruct (binding_valid (k', v')).
    + cbn [dict_getitem]. destruct (String.eqb_spec k' key); [contradiction|].
      now apply IH.
    + now apply IH.
Qed.

Lemma dispatch_letter_clean (c : ascii) (d : desktop) :
  str.is_letter c = true ->
  dispatch raw (String c EmptyString) d =
  dispatch (clean_key_bindings raw) (String c EmptyString) d.
Proof.
  intros Hc. rewrite !dispatch_getitem, clean_key_bindings_filter by exact raw_wf.
  apply lookup_filtered. rewrite strip_letter by exact Hc. discriminate.
Qed.

Lemma start_loop_clean (table : Texttable) (input : list (byte * desktop)) :
  start_loop raw table input = start_loop (clean_key_bindings raw) table input.
Proof.
  induction input as [|[b d] rest IH]; [reflexivity|].
  destruct (is_letter_key b) eqn:Hb.
  - rewrite !start_loop_letter by exact Hb. rewrite IH.
    rewrite dispatch_letter_clean; [reflexivity|].
    unfold is_letter_key in Hb.
    destruct (decode b) as [s|] eqn:Hd; [|discriminate].
    rewrite (decode_single b s Hd) in Hb. simpl in Hb.
    rewrite andb_true_r in Hb. now rewrite is_letter_upper_char.
  - now rewrite !non_letter_stops by exact Hb.
Qed.

End RawAgainstRegistry.

(** C10: for every bindings mapping in which each fragment is either the
    empty string or non-empty after trimming, dispatching a letter key
    against the raw bindings, with the empty-fragment guard of
    [activate_app], produces the same events as dispatching it against the
    filtered registry, and so does the whole loop on every input. *)
Theorem raw_dispatch_refines_registry (raw : dict) :
  dict_wf raw ->
  (forall k v, In (k, v) (items raw) -> v = "" \/ str.strip v <> "") ->
  (forall c d, str.is_letter c = true ->
     dispatch raw (String c EmptyString) d =
     registry_dispatch raw (String c EmptyString) d) /\
  (forall table input,
     start_loop raw table input =
     start_loop (clean_key_bindings raw) table input).
Proof.
  intros Hwf Hplain. split.
  - intros c d Hc. unfold registry_dispatch.
    rewrite <- dispatch_getitem. now apply dispatch_letter_clean.
  - intros table input. now apply start_loop_clean.
Qed.

Lemma raw_dispatch_refines_registry_witness :
  dict_wf [("A", ""); ("E", "Excel")] /\
  (forall k v, In (k, v) (items [("A", ""); ("E", "Excel")]) ->
     v = "" \/ str.strip v <> "") /\
  start_loop [("A", ""); ("E", "Excel")] Sample.table
    [("a"%byte, Sample.desk [Sample.excel_denied]);
     ("e"%byte, Sample.desk [Sample.excel_denied])]
  = start_loop (clean_key_bindings [("A", ""); ("E", "Excel")]) Sample.table
      [("a"%byte, Sample.desk [Sample.excel_denied]);
       ("e"%byte, Sample.desk [Sample.excel_denied])].
Proof.
  assert (Hwf : dict_wf [("A", ""); ("E", "Excel")]).
  { repeat constructor; simpl; intuition discriminate. }
  assert (Hplain : forall k v, In (k, v) (items [("A", ""); ("E", "Excel")]) ->
                               v = "" \/ str.strip v <> "").
  { intros k v [[= <- <-]|[[= <- <-]|[]]]; [now left | right; discriminate]. }
  split; [exact Hwf|]. split; [exact Hplain|].
  apply (proj2 (raw_dispatch_refines_registry _ Hwf Hplain)).
Defined.

(** C8, as the code has it: [clean_key_bindings] keeps every key exactly as
    it is written in the raw bindings, without any change of case; it is
    the keystroke that is brought to upper case before the lookup in
    [KEY_BINDINGS], so that two keystrokes that differ only in case, a
    lowercase letter and its uppercase counterpart, dispatch alike, to the
    binding whose key is the uppercase letter. *)
Theorem keystroke_upper_cased (KEY_BINDINGS : dict) (table : Texttable)
    (b1 b2 : byte) (s1 s2 : string) (d : desktop)
    (rest : list (byte * desktop)) :
  dict_wf KEY_BINDINGS ->
  decode b1 = Some s1 ->
  decode b2 = Some s2 ->
  str.upper s1 = str.upper s2 ->
  start_loop KEY_BINDINGS table ((b1, d) :: rest) =
    start_loop KEY_BINDINGS table ((b2, d) :: rest)
  /\ (str.isalpha s1 = true ->
      fst (start_loop KEY_BINDINGS table ((b1, d) :: rest)) =
        [EvSystem "cls"; EvPrintTable table] ++
        dispatch KEY_BINDINGS (str.upper s1) d ++
        fst (start_loop KEY_BINDINGS table rest))
  /\ (forall k v,
        In (k, v) (items (clean_key_bindings KEY_BINDINGS)) ->
        In (k, v) (items KEY_BINDINGS)).
Proof.
  intros Hwf H1 H2 Hup.
  pose proof (decode_single b1 s1 H1) as E1.
  pose proof (decode_single b2 s2 H2) as E2.
  assert (Hc : str.capitalize s1 = str.capitalize s2).
  { rewrite E1, E2 in Hup |- *. exact Hup. }
  split; [|split].
  - cbn [start_loop]. rewrite H1, H2, Hc. reflexivity.
  - intros Ha. rewrite start_loop_letter
      by (unfold is_letter_key; now rewrite H1).
    rewrite E1. reflexivity.
  - intros k v Hin. unfold items in *.
    rewrite (clean_key_bindings_filter KEY_BINDINGS Hwf) in Hin.
    now apply filter_In in Hin.
Qed.

Lemma keystroke_upper_cased_witness :
  dict_wf [("A", ""); ("E", "Excel")] /\
  decode "e"%byte = Some "e" /\
  decode "E"%byte = Some "E" /\
  str.upper "e" = str.upper "E" /\
  start_loop [("A", ""); ("E", "Excel")] Sample.table
    [("e"%byte, Sample.desk [Sample.excel_denied])]
  = start_loop [("A", ""); ("E", "Excel")] Sample.table
      [("E"%byte, Sample.desk [Sample.excel_denied])].
Proof.
  assert (Hwf : dict_wf [("A", ""); ("E", "Excel")]).
  { repeat constructor; simpl; intuition discriminate. }
  split; [exact Hwf|]. repeat (split; [reflexivity|]).
  exact (proj1 (keystroke_upper_cased [("A", ""); ("E", "Excel")] Sample.table
                  "e"%byte "E"%byte "e" "E"
                  (Sample.desk [Sample.excel_denied]) [] Hwf
                  eq_refl eq_refl eq_refl)).
Defined.

(** C8 as stated fails: a key written in lower case stays in lower case
    in the filtered bindings, and no keystroke reaches its binding. *)
Lemma clean_keeps_lowercase_key :
  keys (clean_key_bindings [("e", "Excel")]) = ["e"] /\
  ~ (forall k, In k (keys (clean_key_bindings [("e", "Excel")])) ->
               str.upper k = k) /\
  (forall d, dispatch [("e", "Excel")] (str.capitalize "e") d = []) /\
  (forall d, dispatch [("e", "Excel")] (str.capitalize "E") d = []).
Proof.
  split; [reflexivity|]. split; [|split; reflexivity].
  intros H. specialize (H "e" (or_introl eq_refl)). discriminate.
Qed.

(** * Further properties *)

(** ** Whitespace and [str.strip] *)

Lemma has_text_app (a b : string) :
  has_text (a ++ b)%string = has_text a || has_text b.
Proof.
  induction a as [|c a IH]; simpl; [reflexivity|].
  now rewrite IH, orb_assoc.
Qed.

Lemma has_text_rev (s : string) : has_text (str.rev s) = has_text s.
Proof.
  induction s as [|c s IH]; simpl; [reflexivity|].
  rewrite has_text_app, IH. simpl. rewrite orb_false_r. apply orb_comm.
Qed.

Lemma has_text_lstrip (s : string) : has_text (str.lstrip s) = has_text s.
Proof.
  induction s as [|c s IH]; simpl; [reflexivity|].
  destruct (str.isspace c) eqn:E; simpl; [exact IH | now rewrite E].
Qed.

Lemma lstrip_empty (s : string) : str.lstrip s = "" <-> has_text s = false.
Proof.
  induction s as [|c s IH]; simpl; [tauto|].
  destruct (str.isspace c); simpl; [exact IH|]. split; discriminate.
Qed.

Lemma rev_empty (s : string) : str.rev s = "" <-> s = "".
Proof.
  destruct s as [|c s]; simpl; [tauto|].
  split; [|discriminate]. destruct (str.rev s); discriminate.
Qed.

(** [s.strip()] is empty exactly when [s] is made of whitespace only. *)
Lemma strip_empty (s : string) : str.strip s = "" <-> has_text s = false.
Proof.
  unfold str.strip, str.rstrip.
  now rewrite rev_empty, lstrip_empty, has_text_rev, has_text_lstrip.
Qed.

Lemma strip_nonempty (s : string) : str.strip s <> "" <-> has_text s = true.
Proof.
  rewrite strip_empty. destruct (has_text s); split; congruence.
Qed.

(** ** More on [clean_key_bindings] *)

Lemma filter_twice (f : string * string -> bool) (l : dict) :
  filter f (filter f l) = filter f l.
Proof.
  induction l as [|x l IH]; simpl; [reflexivity|].
  destruct (f x) eqn:Hx; simpl; [rewrite Hx, IH|]; auto.
Qed.

Lemma getitem_filter (k : string) (b : dict) :
  dict_wf b ->
  dict_getitem k (filter binding_valid b) =
  match dict_getitem k b with
  | Some v => if binding_valid (k, v) then Some v else None
  | None => None
  end.
Proof.
  unfold dict_wf. induction b as [|[k' v'] r IH]; intros Hwf; [reflexivity|].
  simpl in Hwf. inversion Hwf as [|? ? Hk Hr]; subst.
  cbn [filter dict_getitem].
  destruct (String.eqb_spec k' k) as [->|Hne].
  - destruct (binding_valid (k, v')) eqn:Hv.
    + cbn [dict_getitem]. now rewrite String.eqb_refl.
    + apply dict_getitem_notin. intro Hin. apply Hk.
      eapply keys_filter_incl; exact Hin.
  - destruct (binding_valid (k', v')).
    + cbn [dict_getitem]. destruct (String.eqb_spec k' k); [contradiction|].
      now apply IH.
    + now apply IH.
Qed.

(** X1: cleaning is idempotent and its result is again a dict of valid
    bindings only: keys stay distinct, every kept entry passes the
    condition, and cleaning the result changes nothing. *)
Theorem clean_key_bindings_idempotent (bindings : dict) :
  dict_wf bindings ->
  dict_wf (clean_key_bindings bindings) /\
  Forall (fun kv => binding_valid kv = true)
    (items (clean_key_bindings bindings)) /\
  clean_key_bindings (clean_key_bindings bindings) =
    clean_key_bindings bindings.
Proof.
  intros Hwf. rewrite (clean_key_bindings_filter bindings Hwf).
  pose proof (dict_wf_filter binding_valid bindings Hwf) as Hwf'.
  split; [exact Hwf'|]. split.
  - apply Forall_forall. intros kv Hin. now apply filter_In in Hin.
  - rewrite (clean_key_bindings_filter _ Hwf'). apply filter_twice.
Qed.

Lemma clean_key_bindings_idempotent_witness :
  dict_wf [("A", ""); ("B", "X"); (" ", "Y")] /\
  clean_key_bindings (clean_key_bindings [("A", ""); ("B", "X"); (" ", "Y")])
    = clean_key_bindings [("A", ""); ("B", "X"); (" ", "Y")].
Proof.
  assert (Hwf : dict_wf [("A", ""); ("B", "X"); (" ", "Y")]).
  { repeat constructor; simpl; intuition discriminate. }
  split; [exact Hwf|].
  exact (proj2 (proj2 (clean_key_bindings_idempotent _ Hwf))).
Defined.

(** X2: looking a key up in the cleaned bindings gives the fragment the raw
    bindings hold for it when that binding is valid, and [KeyError]
    otherwise, also when the raw bindings do hold the key. *)
Theorem clean_key_bindings_lookup (bindings : dict) (k : string) :
  dict_wf bindings ->
  dict_getitem k (clean_key_bindings bindings) =
  match dict_getitem k bindings with
  | Some v => if binding_valid (k, v) then Some v else None
  | None => None
  end.
Proof.
  intros Hwf. rewrite (clean_key_bindings_filter bindings Hwf).
  now apply getitem_filter.
Qed.

Lemma clean_key_bindings_lookup_witness :
  dict_wf [("A", ""); ("B", "X")] /\
  dict_getitem "A" (clean_key_bindings [("A", ""); ("B", "X")]) = None /\
  dict_getitem "B" (clean_key_bindings [("A", ""); ("B", "X")]) = Some "X".
Proof.
  assert (Hwf : dict_wf [("A", ""); ("B", "X")]).
  { repeat constructor; simpl; intuition discriminate. }
  split; [exact Hwf|]. split.
  - exact (clean_key_bindings_lookup [("A", ""); ("B", "X")] "A" Hwf).
  - exact (clean_key_bindings_lookup [("A", ""); ("B", "X")] "B" Hwf).
Defined.

(** X3: an entry survives cleaning exactly when its key and its fragment
    each hold at least one character that is not whitespace; a key or a
    fragment made of blanks only is dropped like an empty one. *)
Theorem clean_keeps_entries_with_text (bindings : dict) (k v : string) :
  dict_wf bindings ->
  (In (k, v) (items (clean_key_bindings bindings)) <->
   In (k, v) (items bindings) /\ has_text k = true /\ has_text v = true).
Proof.
  intros Hwf. unfold items.
  rewrite (clean_key_bindings_filter bindings Hwf), filter_In,
    binding_valid_iff, !strip_nonempty.
  tauto.
Qed.

Lemma clean_keeps_entries_with_text_witness :
  dict_wf [("A", "  "); ("B", " X ")] /\
  In ("B", " X ") (items (clean_key_bindings [("A", "  "); ("B", " X ")])) /\
  ~ In ("A", "  ") (items (clean_key_bindings [("A", "  "); ("B", " X ")])).
Proof.
  assert (Hwf : dict_wf [("A", "  "); ("B", " X ")]).
  { repeat constructor; simpl; intuition discriminate. }
  split; [exact Hwf|]. split.
  - apply (clean_keeps_entries_with_text _ "B" " X " Hwf).
    simpl. intuition.
  - intro H. apply (clean_keeps_entries_with_text _ "A" "  " Hwf) in H.
    destruct H as [_ [_ H]]. discriminate.
Defined.

(** ** More on [create_table] *)

Lemma pair_eta (x : string * string) : (fst x, snd x) = x.
Proof. now destruct x. Qed.

Lemma left_pair_layout (data : list (string * string)) (h i : nat) :
  left_pair (layout_row data h i) = nth i data ("", "").
Proof. unfold left_pair, layout_row. simpl. apply pair_eta. Qed.

Lemma right_pair_layout (data : list (string * string)) (h i : nat) :
  right_pair (layout_row data h i) = nth (i + h) data ("", "").
Proof. unfold right_pair, layout_row. simpl. apply pair_eta. Qed.

Lemma nth_map_seq (f : nat -> string * string) (h m : nat) :
  m < h -> nth m (map f (seq 0 h)) ("", "") = f m.
Proof.
  intros Hm.
  rewrite (nth_indep (map f (seq 0 h)) ("", "") (f 0))
    by now rewrite length_map, length_seq.
  rewrite map_nth, seq_nth by exact Hm. reflexivity.
Qed.

Lemma nth_padded (data : list (string * string)) (k m : nat) :
  nth m (data ++ repeat ("", "") k) ("", "") = nth m data ("", "").
Proof.
  destruct (Nat.lt_ge_cases m (List.length data)) as [Hlt|Hge].
  - now apply app_nth1.
  - rewrite app_nth2, nth_repeat by exact Hge.
    now rewrite nth_overflow.
Qed.

(** The cells of a layout, read column by column. *)
Lemma layout_columnwise (data : list (string * string)) :
  let h := ceil_half (List.length data) in
  let body := map (layout_row data h) (seq 0 h) in
  map left_pair body ++ map right_pair body =
  data ++ repeat ("", "") (2 * h - List.length data).
Proof.
  intros h body. pose proof (ceil_half_bounds (List.length data)) as Hb.
  fold h in Hb. subst body. rewrite !map_map.
  apply (nth_ext _ _ ("", "") ("", "")).
  - rewrite !length_app, !length_map, !length_seq, repeat_length. lia.
  - rewrite length_app, !length_map, !length_seq. intros m Hm.
    rewrite nth_padded.
    destruct (Nat.lt_ge_cases m h) as [Hlt|Hge].
    + rewrite app_nth1 by now rewrite length_map, length_seq.
      rewrite nth_map_seq by exact Hlt. apply left_pair_layout.
    + rewrite app_nth2 by now rewrite length_map, length_seq.
      rewrite length_map, length_seq.
      rewrite nth_map_seq by lia. rewrite right_pair_layout.
      f_equal. lia.
Qed.

(** X4: reading the data rows of the table column by column, the left
    key/application pairs from top to bottom and then the right ones, gives
    back the filtered bindings in their order, each exactly once, followed
    by one pair of empty cells when their number is odd. *)
Theorem create_table_columnwise (KEY_BINDINGS : dict) :
  exists table,
    create_table KEY_BINDINGS = Some table /\
    let data := items (clean_key_bindings KEY_BINDINGS) in
    let body := tl (rows table) in
    map left_pair body ++ map right_pair body =
    data ++ repeat ("", "") (2 * ceil_half (List.length data) - List.length data)
    /\ 2 * ceil_half (List.length data) - List.length data <= 1.
Proof.
  eexists. split; [apply create_table_layout|].
  cbn [rows tl]. split; [apply layout_columnwise|].
  pose proof (ceil_half_bounds
                (List.length (items (clean_key_bindings KEY_BINDINGS)))).
  lia.
Qed.

(** X5: the table is rectangular: the header and every data row have
    exactly four cells, whatever the bindings. *)
Theorem create_table_four_columns (KEY_BINDINGS : dict) :
  exists table,
    create_table KEY_BINDINGS = Some table /\
    Forall (fun row => List.length row = 4) (rows table) /\
    List.length (cols_align table) = 4 /\
    List.length (cols_valign table) = 4.
Proof.
  eexists. split; [apply create_table_layout|].
  cbn [rows cols_align cols_valign]. repeat split.
  constructor; [reflexivity|].
  apply Forall_forall. intros row Hin.
  apply in_map_iff in Hin as [i [<- _]]. reflexivity.
Qed.

(** X6: the table shows the registry, not the raw bindings: building it
    from the bindings and building it from the cleaned bindings give the
    same table. *)
Theorem create_table_of_clean (KEY_BINDINGS : dict) :
  dict_wf KEY_BINDINGS ->
  create_table (clean_key_bindings KEY_BINDINGS) = create_table KEY_BINDINGS.
Proof.
  intros Hwf. unfold create_table.
  rewrite (clean_key_bindings_filter KEY_BINDINGS Hwf).
  rewrite (clean_key_bindings_filter _ (dict_wf_filter binding_valid _ Hwf)).
  now rewrite filter_twice.
Qed.

Lemma create_table_of_clean_witness :
  dict_wf [("A", ""); ("B", "X"); ("C", "Y")] /\
  create_table (clean_key_bindings [("A", ""); ("B", "X"); ("C", "Y")]) =
  create_table [("A", ""); ("B", "X"); ("C", "Y")].
Proof.
  assert (Hwf : dict_wf [("A", ""); ("B", "X"); ("C", "Y")]).
  { repeat constructor; simpl; intuition discriminate. }
  split; [exact Hwf|].
  exact (create_table_of_clean _ Hwf).
Defined.

(** ** More on [activate_app] *)

Lemma activate_app_no_match_view (target : string) (d : desktop) :
  target <> "" ->
  forallb (fun x => negb (matches target x)) (toplevel d) = true ->
  let t := activate_app target d in
  inspected t = map hwnd (toplevel d) /\
  titles_read t = map hwnd (filter visible (toplevel d)) /\
  selected t = [] /\
  transitions t = [].
Proof.
  intros Ht Hno t. subst t. rewrite (activate_app_no_match target d Ht Hno).
  destruct (enumeration_report_only_output d) as [E1 [E2 [E3 E4]]].
  unfold inspected, titles_read, selected, transitions in *.
  cbn [flat_map filter is_transition app].
  rewrite !flat_map_app, !filter_app.
  fold (inspected (flat_map skipped (toplevel d))).
  fold (titles_read (flat_map skipped (toplevel d))).
  fold (selected (flat_map skipped (toplevel d))).
  fold (transitions (flat_map skipped (toplevel d))).
  rewrite inspected_skipped, titles_read_skipped, selected_skipped,
    transitions_skipped, E1, E2, E3, E4.
  cbn. rewrite !app_nil_r. auto.
Qed.

Lemma enumeration_report_returning (d : desktop) :
  enumeration_report (returning d) = [].
Proof. reflexivity. Qed.

Lemma failure_report_none (w : window) :
  activation_failure w = None -> failure_report w = [].
Proof. unfold failure_report. now intros ->. Qed.

Lemma foreground_requested (w : window) :
  activation_failure w = None -> In (EvSetForegroundWindow (hwnd w)) (requests w).
Proof.
  unfold activation_failure, requests.
  destruct (is_minimized w), (ShowWindow_raises w); simpl; intros H;
    try discriminate; auto.
Qed.

(** X7: when the first matching window is activated without an exception,
    the foreground request is among the requests issued and the only line
    [activate_app] prints of its own is the announcement, with the title in
    upper case; no not-found line follows. *)
Theorem activate_success_output (fragment : string) (d : desktop) (w : window) :
  fragment <> "" ->
  find (matches fragment) (toplevel d) = Some w ->
  activation_failure w = None ->
  let t := activate_app fragment d in
  output t =
    ("Activating window: " ++ str.upper (text w))%string ::
    output (enumeration_report d)
  /\ In (EvSetForegroundWindow (hwnd w)) (transitions t)
  /\ ~ In (EvPrint (not_found_line fragment)) t.
Proof.
  intros Hf Hfind Hok t.
  destruct (find_split _ _ _ Hfind) as [pre [post [Hd [Hpre Hw]]]].
  destruct (activate_app_match_view fragment d pre post w Hf Hd Hpre Hw)
    as [_ [_ [_ Hr]]].
  fold t in Hr. split; [|split].
  - subst t. rewrite (activate_app_match fragment d pre post w Hf Hd Hpre Hw).
    rewrite Hok, (failure_report_none w Hok).
    destruct (requests_only_transitions w) as [_ [_ [_ [R4 _]]]].
    unfold output in *. cbn [flat_map app]. rewrite !flat_map_app.
    fold (output (flat_map skipped pre)). rewrite output_skipped, R4.
    unfold announce. cbn [flat_map app]. now rewrite app_nil_r.
  - rewrite Hr. now apply foreground_requested.
  - subst t. rewrite (activate_app_match fragment d pre post w Hf Hd Hpre Hw).
    rewrite Hok, (failure_report_none w Hok), app_nil_r.
    cbn [app]. intros [Hin|Hin]; [discriminate|].
    apply in_app_or in Hin as [Hin|Hin];
      [|apply in_app_or in Hin as [Hin|Hin];
        [|apply in_app_or in Hin as [Hin|Hin]]].
    + apply in_flat_map in Hin as [x [_ Hin]]. unfold skipped in Hin.
      destruct (visible x); simpl in Hin; intuition discriminate.
    + unfold announce in Hin. simpl in Hin.
      destruct Hin as [Hin|[Hin|[Hin|[Hin|[]]]]]; discriminate.
    + unfold requests in Hin.
      destruct (is_minimized w), (ShowWindow_raises w); simpl in Hin;
        intuition discriminate.
    + unfold enumeration_report in Hin.
      destruct (EnumWindows_raises d); simpl in Hin; [|contradiction].
      destruct Hin as [Hin|[]]. discriminate.
Qed.

Lemma activate_success_output_witness :
  "Notepad++" <> "" /\
  output (activate_app "Notepad++" (Sample.desk [Sample.notepad]))
  = ["Activating window: UNTITLED - NOTEPAD++"].
Proof.
  assert (Hf : "Notepad++" <> "") by discriminate.
  split; [exact Hf|].
  exact (proj1 (activate_success_output "Notepad++"
                  (Sample.desk [Sample.notepad]) Sample.notepad
                  Hf eq_refl eq_refl)).
Defined.

(** X8: an exception of [EnumWindows] is caught: the call issues the very
    events it issues when [EnumWindows] returns, with one more line, the
    report of the exception, printed after the enumeration and before the
    not-found line if there is one. *)
Theorem enumeration_failure_caught (fragment : string) (d : desktop)
    (e : string) :
  fragment <> "" ->
  EnumWindows_raises d = Some e ->
  exists before after,
    activate_app fragment (returning d) = before ++ after /\
    activate_app fragment d =
      before ++
      EvPrint ("An error occurred while checking windows: " ++ e)%string ::
      after /\
    (after = [] \/ after = [EvPrint (not_found_line fragment)]).
Proof.
  intros Hf He.
  destruct (find (matches fragment) (toplevel d)) as [w|] eqn:Hfind.
  - destruct (find_split _ _ _ Hfind) as [pre [post [Hd [Hpre Hw]]]].
    rewrite (activate_app_match fragment d pre post w Hf Hd Hpre Hw).
    rewrite (activate_app_match fragment (returning d) pre post w Hf Hd Hpre Hw).
    rewrite enumeration_report_returning. unfold enumeration_report.
    rewrite He.
    exists (EvEnumWindows :: flat_map skipped pre ++ announce w ++
            requests w ++ failure_report w).
    eexists. cbn [app]. rewrite <- !app_assoc. cbn [app].
    split; [reflexivity|]. split; [reflexivity|].
    destruct (activation_failure w); auto.
  - apply find_none_forallb in Hfind.
    rewrite (activate_app_no_match fragment d Hf Hfind).
    rewrite (activate_app_no_match fragment (returning d) Hf Hfind).
    rewrite enumeration_report_returning. unfold enumeration_report.
    rewrite He.
    exists (EvEnumWindows :: flat_map skipped (toplevel d)).
    eexists. cbn [app returning toplevel].
    split; [reflexivity|]. split; [reflexivity|]. auto.
Qed.

Lemma enumeration_failure_caught_witness :
  let d := {| toplevel := [Sample.notepad];
              EnumWindows_raises := Some "No error message is available" |} in
  "Notepad++" <> "" /\
  EnumWindows_raises d = Some "No error message is available" /\
  exists before after,
    activate_app "Notepad++" (returning d) = before ++ after /\
    activate_app "Notepad++" d =
      before ++
      EvPrint "An error occurred while checking windows: No error message is available" ::
      after /\
    (after = [] \/ after = [EvPrint (not_found_line "Notepad++")]).
Proof.
  intros d.
  assert (Hf : "Notepad++" <> "") by discriminate.
  split; [exact Hf|]. split; [reflexivity|].
  exact (enumeration_failure_caught "Notepad++" d
           "No error message is available" Hf eq_refl).
Defined.

(** ** Fragments that differ in case *)

Lemma matches_upper (f1 f2 : string) (w : window) :
  str.upper f1 = str.upper f2 -> matches f1 w = matches f2 w.
Proof. unfold matches. now intros ->. Qed.

Lemma find_matches_upper (f1 f2 : string) (ws : list window) :
  str.upper f1 = str.upper f2 ->
  find (matches f1) ws = find (matches f2) ws.
Proof.
  intros H. induction ws as [|w ws IH]; simpl; [reflexivity|].
  now rewrite (matches_upper f1 f2 w H), IH.
Qed.

Lemma forallb_matches_upper (f1 f2 : string) (ws : list window) :
  str.upper f1 = str.upper f2 ->
  forallb (fun x => negb (matches f1 x)) ws =
  forallb (fun x => negb (matches f2 x)) ws.
Proof.
  intros H. induction ws as [|w ws IH]; simpl; [reflexivity|].
  now rewrite (matches_upper f1 f2 w H), IH.
Qed.

Lemma upper_nonempty (f1 f2 : string) :
  str.upper f1 = str.upper f2 -> f1 <> "" -> f2 <> "".
Proof. destruct f1, f2; simpl; congruence. Qed.

(** X9: the case of the fragment does not matter to what [activate_app]
    does to the windows: two non-empty fragments equal up to case inspect
    the same windows, read the same titles, select the same window and
    issue the same requests. *)
Theorem fragment_case_irrelevant (f1 f2 : string) (d : desktop) :
  f1 <> "" ->
  str.upper f1 = str.upper f2 ->
  inspected (activate_app f1 d) = inspected (activate_app f2 d) /\
  titles_read (activate_app f1 d) = titles_read (activate_app f2 d) /\
  selected (activate_app f1 d) = selected (activate_app f2 d) /\
  transitions (activate_app f1 d) = transitions (activate_app f2 d).
Proof.
  intros Hf1 Hup. pose proof (upper_nonempty f1 f2 Hup Hf1) as Hf2.
  destruct (find (matches f1) (toplevel d)) as [w|] eqn:Hfind.
  - destruct (find_split _ _ _ Hfind) as [pre [post [Hd [Hpre Hw]]]].
    assert (Hpre2 : forallb (fun x => negb (matches f2 x)) pre = true)
      by now rewrite <- (forallb_matches_upper f1 f2 pre Hup).
    assert (Hw2 : matches f2 w = true)
      by now rewrite <- (matches_upper f1 f2 w Hup).
    destruct (activate_app_match_view f1 d pre post w Hf1 Hd Hpre Hw)
      as [-> [-> [-> ->]]].
    destruct (activate_app_match_view f2 d pre post w Hf2 Hd Hpre2 Hw2)
      as [-> [-> [-> ->]]].
    auto.
  - apply find_none_forallb in Hfind.
    assert (Hno2 : forallb (fun x => negb (matches f2 x)) (toplevel d) = true)
      by now rewrite <- (forallb_matches_upper f1 f2 _ Hup).
    destruct (activate_app_no_match_view f1 d Hf1 Hfind) as [-> [-> [-> ->]]].
    destruct (activate_app_no_match_view f2 d Hf2 Hno2) as [-> [-> [-> ->]]].
    auto.
Qed.

Lemma fragment_case_irrelevant_witness :
  "notepad++" <> "" /\
  str.upper "notepad++" = str.upper "NotePad++" /\
  selected (activate_app "notepad++" (Sample.desk [Sample.notepad])) =
  selected (activate_app "NotePad++" (Sample.desk [Sample.notepad])).
Proof.
  assert (Hf : "notepad++" <> "") by discriminate.
  split; [exact Hf|]. split; [reflexivity|].
  exact (proj1 (proj2 (proj2
    (fragment_case_irrelevant "notepad++" "NotePad++"
       (Sample.desk [Sample.notepad]) Hf eq_refl)))).
Defined.

(** ** What one call can do *)

Lemma enumerations_app (a b : list event) :
  enumerations (a ++ b) = enumerations a + enumerations b.
Proof. unfold enumerations. now rewrite map_app, count_occ_app. Qed.

Lemma enumerations_skipped (ws : list window) :
  enumerations (flat_map skipped ws) = 0.
Proof.
  induction ws as [|w ws IH]; simpl; [reflexivity|].
  rewrite enumerations_app, IH. unfold skipped.
  destruct (visible w); reflexivity.
Qed.

Lemma enumerations_requests (w : window) : enumerations (requests w) = 0.
Proof.
  unfold requests. destruct (is_minimized w), (ShowWindow_raises w); reflexivity.
Qed.

Lemma enumerations_failure_report (w : window) :
  enumerations (failure_report w) = 0.
Proof. unfold failure_report. destruct (activation_failure w); reflexivity. Qed.

Lemma enumerations_enumeration_report (d : desktop) :
  enumerations (enumeration_report d) = 0.
Proof. unfold enumeration_report. destruct (EnumWindows_raises d); reflexivity. Qed.

(** A non-empty fragment costs exactly one [EnumWindows] call. *)
Lemma enumerations_activate_app (fragment : string) (d : desktop) :
  fragment <> "" -> enumerations (activate_app fragment d) = 1.
Proof.
  intros Hf.
  destruct (find (matches fragment) (toplevel d)) as [w|] eqn:Hfind.
  - destruct (find_split _ _ _ Hfind) as [pre [post [Hd [Hpre Hw]]]].
    rewrite (activate_app_match fragment d pre post w Hf Hd Hpre Hw).
    change (EvEnumWindows :: ?l) with ([EvEnumWindows] ++ l).
    rewrite !enumerations_app, enumerations_skipped, enumerations_requests,
      enumerations_failure_report, enumerations_enumeration_report.
    destruct (activation_failure w); reflexivity.
  - apply find_none_forallb in Hfind.
    rewrite (activate_app_no_match fragment d Hf Hfind).
    change (EvEnumWindows :: ?l) with ([EvEnumWindows] ++ l).
    rewrite !enumerations_app, enumerations_skipped,
      enumerations_enumeration_report.
    reflexivity.
Qed.

Lemma requests_bounded (w : window) :
  List.length (requests w) <= 2 /\
  forall e h, In e (requests w) -> request_target e = Some h -> h = hwnd w.
Proof.
  unfold requests.
  destruct (is_minimized w), (ShowWindow_raises w); simpl; split; try lia;
    intros e h Hin Ht; intuition (subst; simpl in Ht; congruence).
Qed.

(** X10: one call with a non-empty fragment calls [EnumWindows] exactly
    once, selects at most one window and issues at most two requests, all
    of them addressed to the selected window: no other window changes
    state. *)
Theorem one_window_per_call (fragment : string) (d : desktop) :
  fragment <> "" ->
  let t := activate_app fragment d in
  enumerations t = 1 /\
  List.length (selected t) <= 1 /\
  List.length (transitions t) <= 2 /\
  (forall e h, In e (transitions t) -> request_target e = Some h ->
     selected t = [h]).
Proof.
  intros Hf t. split; [now apply enumerations_activate_app|].
  destruct (find (matches fragment) (toplevel d)) as [w|] eqn:Hfind.
  - destruct (find_split _ _ _ Hfind) as [pre [post [Hd [Hpre Hw]]]].
    destruct (activate_app_match_view fragment d pre post w Hf Hd Hpre Hw)
      as [_ [_ [Hs Hr]]].
    fold t in Hs, Hr. rewrite Hs, Hr.
    destruct (requests_bounded w) as [Hlen Htarget].
    split; [simpl; lia|]. split; [exact Hlen|].
    intros e h Hin Ht. now rewrite (Htarget e h Hin Ht).
  - apply find_none_forallb in Hfind.
    destruct (activate_app_no_match_view fragment d Hf Hfind)
      as [_ [_ [Hs Hr]]].
    fold t in Hs, Hr. rewrite Hs, Hr. simpl.
    split; [lia|]. split; [lia|]. intros e h [].
Qed.

Lemma one_window_per_call_witness :
  "Outlook" <> "" /\
  enumerations
    (activate_app "Outlook"
       (Sample.desk [Sample.notepad; Sample.outlook_minimized])) = 1.
Proof.
  assert (Hf : "Outlook" <> "") by discriminate.
  split; [exact Hf|].
  exact (proj1 (one_window_per_call "Outlook"
                  (Sample.desk [Sample.notepad; Sample.outlook_minimized]) Hf)).
Defined.

(** X11: the guard of [activate_app] tests for the empty string only.
    In any bindings, a letter key bound to a fragment that is not empty but
    made of blanks only is absent from the cleaned bindings, and so from
    the table and from the registry, yet pressing it still runs one
    enumeration of the windows with that fragment. *)
Theorem blank_fragment_still_enumerates (raw : dict) (c : ascii) (v : string)
    (d : desktop) :
  dict_wf raw ->
  str.is_letter c = true ->
  dict_getitem (String c EmptyString) raw = Some v ->
  v <> "" ->
  has_text v = false ->
  let key := String c EmptyString in
  dict_contains key (clean_key_bindings raw) = false /\
  registry_dispatch raw key d = [] /\
  dispatch raw key d = activate_app v d /\
  enumerations (dispatch raw key d) = 1.
Proof.
  intros Hwf Hc Hget Hv Hblank key.
  assert (Hinvalid : binding_valid (key, v) = false).
  { destruct (binding_valid (key, v)) eqn:E; [|reflexivity].
    apply binding_valid_iff in E as [_ E]. apply strip_nonempty in E.
    congruence. }
  assert (Hclean : dict_getitem key (clean_key_bindings raw) = None).
  { rewrite (clean_key_bindings_filter raw Hwf), (getitem_filter key raw Hwf).
    fold key in Hget. now rewrite Hget, Hinvalid. }
  assert (Hd : dispatch raw key d = activate_app v d).
  { rewrite dispatch_getitem. fold key in Hget. now rewrite Hget. }
  split; [now apply dict_contains_false|]. split.
  - unfold registry_dispatch. now rewrite Hclean.
  - split; [exact Hd|]. rewrite Hd. now apply enumerations_activate_app.
Qed.

Lemma blank_fragment_still_enumerates_witness :
  dict_wf [("A", ""); ("E", " "); ("I", "Notepad++")] /\
  str.is_letter "E"%char = true /\
  dict_getitem "E" [("A", ""); ("E", " "); ("I", "Notepad++")] = Some " " /\
  " " <> "" /\ has_text " " = false /\
  registry_dispatch [("A", ""); ("E", " "); ("I", "Notepad++")] "E"
    (Sample.desk [Sample.notepad]) = [] /\
  enumerations
    (dispatch [("A", ""); ("E", " "); ("I", "Notepad++")] "E"
       (Sample.desk [Sample.notepad])) = 1.
Proof.
  assert (Hwf : dict_wf [("A", ""); ("E", " "); ("I", "Notepad++")]).
  { repeat constructor; simpl; intuition discriminate. }
  assert (Hv : " " <> "") by discriminate.
  split; [exact Hwf|]. split; [reflexivity|]. split; [reflexivity|].
  split; [exact Hv|]. split; [reflexivity|].
  pose proof (blank_fragment_still_enumerates
                [("A", ""); ("E", " "); ("I", "Notepad++")] "E"%char " "
                (Sample.desk [Sample.notepad]) Hwf eq_refl eq_refl Hv eq_refl)
    as [_ [Hreg [_ Henum]]].
  split; [exact Hreg | exact Henum].
Defined.

(** ** More on [start_loop] *)

Lemma skipped_no_loop_event (ws : list window) :
  Forall (fun e => loop_event e = false) (flat_map skipped ws).
Proof.
  induction ws as [|w ws IH]; simpl; [constructor|].
  apply Forall_app. split; [|exact IH].
  unfold skipped. destruct (visible w); repeat constructor.
Qed.

Lemma requests_no_loop_event (w : window) :
  Forall (fun e => loop_event e = false) (requests w).
Proof.
  unfold requests. destruct (is_minimized w), (ShowWindow_raises w);
    repeat constructor.
Qed.

Lemma failure_report_no_loop_event (w : window) :
  Forall (fun e => loop_event e = false) (failure_report w).
Proof.
  unfold failure_report. destruct (activation_failure w); repeat constructor.
Qed.

Lemma enumeration_report_no_loop_event (d : desktop) :
  Forall (fun e => loop_event e = false) (enumeration_report d).
Proof.
  unfold enumeration_report. destruct (EnumWindows_raises d); repeat constructor.
Qed.

(** [activate_app] neither clears the console nor draws the table. *)
Lemma activate_app_no_loop_event (target : string) (d : desktop) :
  Forall (fun e => loop_event e = false) (activate_app target d).
Proof.
  destruct target as [|c r] eqn:Et; [constructor|]. rewrite <- Et.
  assert (Hf : target <> "") by (rewrite Et; discriminate).
  destruct (find (matches target) (toplevel d)) as [w|] eqn:Hfind.
  - destruct (find_split _ _ _ Hfind) as [pre [post [Hd [Hpre Hw]]]].
    rewrite (activate_app_match target d pre post w Hf Hd Hpre Hw).
    constructor; [reflexivity|].
    apply Forall_app; split; [apply skipped_no_loop_event|].
    apply Forall_app; split; [repeat constructor|].
    apply Forall_app; split; [apply requests_no_loop_event|].
    apply Forall_app; split; [apply failure_report_no_loop_event|].
    apply Forall_app; split; [apply enumeration_report_no_loop_event|].
    destruct (activation_failure w); repeat constructor.
  - apply find_none_forallb in Hfind.
    rewrite (activate_app_no_match target d Hf Hfind).
    constructor; [reflexivity|].
    apply Forall_app; split; [apply skipped_no_loop_event|].
    apply Forall_app; split; [apply enumeration_report_no_loop_event|].
    repeat constructor.
Qed.

Lemma dispatch_no_loop_event (KEY_BINDINGS : dict) (key : string) (d : desktop) :
  Forall (fun e => loop_event e = false) (dispatch KEY_BINDINGS key d).
Proof.
  rewrite dispatch_getitem. destruct (dict_getitem key KEY_BINDINGS).
  - apply activate_app_no_loop_event.
  - constructor.
Qed.

Lemma tables_drawn_none (t : list event) :
  Forall (fun e => loop_event e = false) t -> tables_drawn t = [].
Proof.
  induction 1 as [|e t He _ IH]; [reflexivity|].
  unfold tables_drawn in *. cbn [flat_map]. rewrite IH.
  destruct e; simpl in He; try discriminate; reflexivity.
Qed.

(** X12: a letter key that is not bound, or is bound to the empty
    fragment, does nothing: the turn consists of the rendering alone and
    the loop goes on with the next key. *)
Theorem unbound_letter_is_silent (KEY_BINDINGS : dict) (table : Texttable)
    (b : byte) (d : desktop) (rest : list (byte * desktop)) :
  is_letter_key b = true ->
  (let key := String (str.upper_char (ascii_of_byte b)) EmptyString in
   dict_getitem key KEY_BINDINGS = None \/
   dict_getitem key KEY_BINDINGS = Some "") ->
  start_loop KEY_BINDINGS table ((b, d) :: rest) =
  ([EvSystem "cls"; EvPrintTable table] ++
   fst (start_loop KEY_BINDINGS table rest),
   snd (start_loop KEY_BINDINGS table rest)).
Proof.
  intros Hb Hkey. rewrite (start_loop_letter KEY_BINDINGS table b d rest Hb).
  rewrite dispatch_getitem. cbv zeta in Hkey.
  destruct Hkey as [-> | ->]; reflexivity.
Qed.

Lemma unbound_letter_is_silent_witness :
  is_letter_key "a"%byte = true /\
  dict_getitem "A" Config.KEY_BINDINGS = Some "" /\
  start_loop Config.KEY_BINDINGS Sample.table
    [("a"%byte, Sample.desk [Sample.notepad])]
  = ([EvSystem "cls"; EvPrintTable Sample.table;
      EvSystem "cls"; EvPrintTable Sample.table], AwaitingKey).
Proof.
  split; [reflexivity|]. split; [reflexivity|].
  exact (unbound_letter_is_silent Config.KEY_BINDINGS Sample.table "a"%byte
           (Sample.desk [Sample.notepad]) [] eq_refl (or_intror eq_refl)).
Defined.

(** X13: only a key that is not a letter ends the loop: the loop is still
    waiting for a key after the input exactly when every key read was a
    letter, whatever the bindings and whatever the activations did. *)
Theorem loop_awaits_iff_letters (KEY_BINDINGS : dict) (table : Texttable)
    (input : list (byte * desktop)) :
  snd (start_loop KEY_BINDINGS table input) = AwaitingKey <->
  forallb is_letter_key (map fst input) = true.
Proof.
  induction input as [|[b d] rest IH]; [simpl; tauto|].
  cbn [map fst forallb].
  destruct (is_letter_key b) eqn:Hb.
  - rewrite (start_loop_letter KEY_BINDINGS table b d rest Hb).
    cbn [snd andb]. exact IH.
  - rewrite (non_letter_stops KEY_BINDINGS table b d rest Hb).
    cbn [snd andb]. split; discriminate.
Qed.

(** X14: the keys after the first key that is not a letter are never
    read: cutting the input after that key changes nothing. *)
Theorem keys_after_exit_ignored (KEY_BINDINGS : dict) (table : Texttable)
    (pre post : list (byte * desktop)) (b : byte) (d : desktop) :
  is_letter_key b = false ->
  start_loop KEY_BINDINGS table (pre ++ (b, d) :: post) =
  start_loop KEY_BINDINGS table (pre ++ [(b, d)]).
Proof.
  intros Hb. induction pre as [|[b' d'] pre IH]; cbn [app].
  - now rewrite !(non_letter_stops KEY_BINDINGS table b d _ Hb).
  - destruct (is_letter_key b') eqn:Hb'.
    + rewrite !(start_loop_letter KEY_BINDINGS table b' d' _ Hb').
      now rewrite IH.
    + now rewrite !(non_letter_stops KEY_BINDINGS table b' d' _ Hb').
Qed.

Lemma keys_after_exit_ignored_witness :
  is_letter_key "1"%byte = false /\
  start_loop Config.KEY_BINDINGS Sample.table
    ([("i"%byte, Sample.desk [Sample.notepad])] ++
     ("1"%byte, Sample.desk []) :: [("i"%byte, Sample.desk [Sample.notepad])])
  = start_loop Config.KEY_BINDINGS Sample.table
      ([("i"%byte, Sample.desk [Sample.notepad])] ++ [("1"%byte, Sample.desk [])]).
Proof.
  split; [reflexivity|].
  exact (keys_after_exit_ignored Config.KEY_BINDINGS Sample.table
           [("i"%byte, Sample.desk [Sample.notepad])]
           [("i"%byte, Sample.desk [Sample.notepad])]
           "1"%byte (Sample.desk []) eq_refl).
Defined.

Lemma tables_drawn_start_loop (KEY_BINDINGS : dict) (table : Texttable)
    (input : list (byte * desktop)) :
  tables_drawn (fst (start_loop KEY_BINDINGS table input)) =
  repeat table (S (leading_letters input)).
Proof.
  induction input as [|[b d] rest IH]; [reflexivity|].
  cbn [leading_letters]. destruct (is_letter_key b) eqn:Hb.
  - rewrite (start_loop_letter KEY_BINDINGS table b d rest Hb). cbn [fst].
    unfold tables_drawn in *. cbn [flat_map app]. rewrite flat_map_app, IH.
    fold (tables_drawn
            (dispatch KEY_BINDINGS
               (String (str.upper_char (ascii_of_byte b)) EmptyString) d)).
    rewrite (tables_drawn_none _ (dispatch_no_loop_event _ _ _)).
    reflexivity.
  - rewrite (non_letter_stops KEY_BINDINGS table b d rest Hb). reflexivity.
Qed.

(** X15: the loop draws the table once at the start of every turn and
    nothing else draws it: the tables drawn are the table it was given,
    once more than the number of letter keys read before the first other
    key. *)
Theorem start_loop_renders (KEY_BINDINGS : dict) (table : Texttable)
    (input : list (byte * desktop)) :
  tables_drawn (fst (start_loop KEY_BINDINGS table input)) =
  repeat table (S (leading_letters input)).
Proof. apply tables_drawn_start_loop. Qed.

(** X16: [AppSwitcher()] never fails while it builds the table: it sets
    the console title first, builds the table once from the bindings, and
    runs the loop with it, so that every table drawn during the session is
    that one. *)
Theorem AppSwitcher_runs (KEY_BINDINGS : dict) (input : list (byte * desktop)) :
  exists table,
    create_table KEY_BINDINGS = Some table /\
    AppSwitcher KEY_BINDINGS input =
      Some (EvSystem "title Python App Switcher" ::
            fst (start_loop KEY_BINDINGS table input),
            snd (start_loop KEY_BINDINGS table input)) /\
    (forall t st, AppSwitcher KEY_BINDINGS input = Some (t, st) ->
       tables_drawn t = repeat table (S (leading_letters input))).
Proof.
  pose proof (create_table_layout KEY_BINDINGS) as Ht. cbv zeta in Ht.
  eexists. split; [exact Ht|].
  unfold AppSwitcher. rewrite Ht.
  match goal with
  | |- context [start_loop KEY_BINDINGS ?tb input] =>
      pose proof (tables_drawn_start_loop KEY_BINDINGS tb input) as Hr;
      destruct (start_loop KEY_BINDINGS tb input) as [t0 st0]
  end.
  split; [reflexivity|].
  intros t st [= <- <-]. exact Hr.
Qed.

(** ** Hidden windows and reachable keys *)

Lemma enum_callback_hidden (target : string) (w : window) (found : bool) :
  visible w = false ->
  enum_callback target w found = ([EvIsWindowVisible (hwnd w)], found, inr true).
Proof.
  intros Hv. unfold enum_callback, IsWindowVisible, bind, emit, ret.
  rewrite Hv. reflexivity.
Qed.

Lemma enumerate_hidden (target : string) (pre post : list window)
    (w w' : window) (found : bool) :
  visible w = false -> visible w' = false -> hwnd w = hwnd w' ->
  enumerate (enum_callback target) (pre ++ w :: post) found =
  enumerate (enum_callback target) (pre ++ w' :: post) found.
Proof.
  intros Hv Hv' Hh. revert found.
  induction pre as [|x pre IH]; intros found; cbn [app enumerate]; unfold bind.
  - now rewrite (enum_callback_hidden target w found Hv),
      (enum_callback_hidden target w' found Hv'), Hh.
  - destruct (enum_callback target x found) as [[t1 f1] [e|[|]]];
      [reflexivity | | reflexivity].
    now rewrite IH.
Qed.

(** X17: of a window that is not visible only the handle is ever looked
    at: its title, its show state and the way its requests would end do not
    change anything [activate_app] does. *)
Theorem hidden_window_opaque (target : string) (d : desktop)
    (pre post : list window) (w w' : window) :
  visible w = false -> visible w' = false -> hwnd w = hwnd w' ->
  activate_app target (with_toplevel d (pre ++ w :: post)) =
  activate_app target (with_toplevel d (pre ++ w' :: post)).
Proof.
  intros Hv Hv' Hh.
  unfold activate_app, activate_app_body, EnumWindows, with_toplevel.
  cbn [toplevel EnumWindows_raises].
  unfold try_except, bind at 1 3. unfold bind at 1 3. unfold bind at 1 3.
  cbn [emit].
  now rewrite (enumerate_hidden target pre post w w' false Hv Hv' Hh).
Qed.

Lemma hidden_window_opaque_witness :
  visible Sample.notepad_hidden = false /\
  activate_app "Notepad++"
    (with_toplevel (Sample.desk []) ([] ++ Sample.notepad_hidden :: [Sample.notepad]))
  = activate_app "Notepad++"
      (with_toplevel (Sample.desk [])
         ([] ++ {| hwnd := 102; visible := false; text := "";
                   showCmd := 2; ShowWindow_raises := Some "x";
                   SetForegroundWindow_raises := Some "y" |} :: [Sample.notepad])).
Proof.
  split; [reflexivity|].
  exact (hidden_window_opaque "Notepad++" (Sample.desk []) [] [Sample.notepad]
           Sample.notepad_hidden
           {| hwnd := 102; visible := false; text := "";
              showCmd := 2; ShowWindow_raises := Some "x";
              SetForegroundWindow_raises := Some "y" |}
           eq_refl eq_refl eq_refl).
Defined.

Lemma letter_upper_char_is_upper (c : ascii) :
  str.is_letter c = true -> str.is_upper (str.upper_char c) = true.
Proof. destruct c as [[|] [|] [|] [|] [|] [|] [|] [|]]; cbv; congruence. Qed.

(** X18: the key the loop looks up is always one upper-case letter from A
    to Z: whatever the bindings hold under any other key, an empty key, a
    lower-case letter, a digit or a longer string, is never dispatched. *)
Theorem lookup_key_is_upper_letter (KEY_BINDINGS : dict) (table : Texttable)
    (b : byte) (d : desktop) (rest : list (byte * desktop)) :
  is_letter_key b = true ->
  exists c,
    str.is_upper c = true /\
    fst (start_loop KEY_BINDINGS table ((b, d) :: rest)) =
      [EvSystem "cls"; EvPrintTable table] ++
      dispatch KEY_BINDINGS (String c EmptyString) d ++
      fst (start_loop KEY_BINDINGS table rest).
Proof.
  intros Hb. exists (str.upper_char (ascii_of_byte b)). split.
  - apply letter_upper_char_is_upper. unfold is_letter_key in Hb.
    destruct (decode b) as [s|] eqn:Hd; [|discriminate].
    rewrite (decode_single b s Hd) in Hb. simpl in Hb.
    now rewrite andb_true_r in Hb.
  - now rewrite (start_loop_letter KEY_BINDINGS table b d rest Hb).
Qed.

Lemma lookup_key_is_upper_letter_witness :
  is_letter_key "e"%byte = true /\
  exists c,
    str.is_upper c = true /\
    fst (start_loop Config.KEY_BINDINGS Sample.table
           [("e"%byte, Sample.desk [Sample.excel_denied])]) =
      [EvSystem "cls"; EvPrintTable Sample.table] ++
      dispatch Config.KEY_BINDINGS (String c EmptyString)
        (Sample.desk [Sample.excel_denied]) ++
      fst (start_loop Config.KEY_BINDINGS Sample.table []).
Proof.
  split; [reflexivity|].
  exact (lookup_key_is_upper_letter Config.KEY_BINDINGS Sample.table "e"%byte
           (Sample.desk [Sample.excel_denied]) [] eq_refl).
Defined.
